(** * nbind: locating and initializing a compiled binding

    A shallow embedding of [src/nbind.ts].  The module has two parts:

    - the locator ([makeModulePathList], [findCompiledModule], [find]),
      which probes a fixed list of candidate paths with the host's
      [require.resolve];
    - the initializer ([init], [initAsm], [initNode]), which loads the
      located binary and fills a [Binding] object.

    JavaScript objects are mutable and shared, so they live in a store
    indexed by locations; exceptions, the store and the sequence of
    observable calls are threaded through a small monad. *)

From Stdlib Require Import ZArith Ascii.
From stdpp Require Import gmap strings list fin_maps.

Open Scope string_scope.
Open Scope list_scope.

(** ** Data model *)

Abbreviation loc := positive.

(** [ModuleSpec.type]. *)
Inductive kind := node | emcc.

(** [interface ModuleSpec]; [path] is the optional field set on resolution. *)
Record ModuleSpec := mkSpec {
  type : kind;
  ext : string;
  name : string;
  path : option string
}.

Definition set_path (spec : ModuleSpec) (p : string) : ModuleSpec :=
  {| type := type spec; ext := ext spec; name := name spec; path := Some p |}.

(** Thrown values.  Every exception of the module is an [Error] object;
    the locator attaches the list of attempted paths as [tries]. *)
Record error := mkError {
  message : string;
  tries : option (list string)
}.

(** The completion callback of [init]: the caller's function, or the
    default [rethrow]. *)
Inductive callback := rethrow | user_callback (id : nat).

(** JavaScript values.  Function values are either opaque host functions
    (named by an identifier) or one of the two closures that [initAsm]
    builds. *)
Inductive value :=
| VUndefined
| VNull
| VBool (b : bool)
| VNum (n : Z)
| VStr (s : string)
| VObj (l : loc)
| VFun (f : fn)
with fn :=
| FHost (id : nat)
| FLocateFile (binding : loc)
| FRuntimeInitialized (orig : value) (lib : loc) (binding : loc) (cb : callback).

(** Truthiness, as tested by [!lib], [||] and [if(...)]. *)
Definition truthy (v : value) : bool :=
  match v with
  | VUndefined | VNull => false
  | VBool b => b
  | VNum n => negb (n =? 0)%Z
  | VStr s => negb (String.eqb s "")
  | VObj _ | VFun _ => true
  end.

Definition typeof (v : value) : string :=
  match v with
  | VUndefined => "undefined"
  | VNull => "object"
  | VBool _ => "boolean"
  | VNum _ => "number"
  | VStr _ => "string"
  | VObj _ => "object"
  | VFun _ => "function"
  end.

(** [class Binding]: its two fields, both unset after [new Binding()]. *)
Record Binding := mkBinding {
  binary : option ModuleSpec;
  lib : option loc
}.

(** The store: plain objects (property maps), [Binding] instances, and the
    module-level variable [currentBinding]. *)
Record Store := mkStore {
  objects : gmap loc (gmap string value);
  bindings : gmap loc Binding;
  currentBinding : option loc
}.

(** Observable calls, in the order they happen. [EvCallback] records the
    store the callback is entered with. *)
Inductive Event :=
| EvResolve (p : string)
| EvRequire (p : string)
| EvCall (id : nat) (args : list value)
| EvCallback (cb : callback) (err : option error) (result : option loc)
             (seen : Store).

(** What the top-level code of a loaded file does to the module object it
    obtains from [getLib()]. *)
Inductive Action :=
| ActDefine (key : string) (v : value)
| ActReady
| ActRaise (e : error).

(** Result of [require(path)]: the file's top-level actions and its
    exports, or an exception from the loader. *)
Inductive Loaded :=
| LoadRaises (e : error)
| LoadValue (script : list Action) (exports : value).

(** ** The monad: store, exceptions, event log *)

Record Res (A : Type) := mkRes {
  outcome : error + A;
  final : Store;
  events : list Event
}.
Arguments mkRes {A} _ _ _.
Arguments outcome {A} _.
Arguments final {A} _.
Arguments events {A} _.

Definition M (A : Type) : Type := Store -> Res A.

Definition ret {A} (a : A) : M A := fun s => mkRes (inr a) s [].

Definition throw {A} (e : error) : M A := fun s => mkRes (inl e) s [].

Definition bind {A B} (m : M A) (k : A -> M B) : M B := fun s =>
  let r := m s in
  match outcome r with
  | inl e => mkRes (inl e) (final r) (events r)
  | inr a =>
      let r' := k a (final r) in
      mkRes (outcome r') (final r') (events r ++ events r')
  end.

(** [try { m } catch(err) { ... }] as a value: the exception or the result. *)
Definition try_ {A} (m : M A) : M (error + A) := fun s =>
  let r := m s in mkRes (inr (outcome r)) (final r) (events r).

Definition emit (ev : Event) : M unit := fun s => mkRes (inr tt) s [ev].

Definition get_store : M Store := fun s => mkRes (inr s) s [].

Definition modify (f : Store -> Store) : M unit := fun s => mkRes (inr tt) (f s) [].

Declare Scope m_scope.
Delimit Scope m_scope with M.
Notation "x <- m ;; k" := (bind m (fun x => k))
  (at level 100, m at next level, right associativity) : m_scope.
Notation "m ;; k" := (bind m (fun _ => k))
  (at level 100, right associativity) : m_scope.
Open Scope m_scope.

Definition TypeError (msg : string) : error := mkError msg None.

(** ** Store operations *)

(** The property map of an object; a location without a cell has none. *)
Definition obj_of (s : Store) (l : loc) : gmap string value :=
  default ∅ (objects s !! l).

(** [o[key]]; a missing property reads as [undefined]. *)
Definition get_prop (l : loc) (key : string) : M value := fun s =>
  mkRes (inr (default VUndefined (obj_of s l !! key))) s [].

Definition write_prop (l : loc) (key : string) (v : value) (s : Store) : Store :=
  mkStore (<[l := <[key := v]> (obj_of s l)]> (objects s))
          (bindings s) (currentBinding s).

(** [o[key] = v]. *)
Definition set_prop (l : loc) (key : string) (v : value) : M unit :=
  modify (write_prop l key v).

(** [delete o[key]]. *)
Definition remove_prop (l : loc) (key : string) (s : Store) : Store :=
  mkStore (<[l := delete key (obj_of s l)]> (objects s))
          (bindings s) (currentBinding s).

(** [Object.keys(o)]. *)
Definition object_keys (l : loc) : M (list string) := fun s =>
  mkRes (inr (map fst (map_to_list (obj_of s l)))) s [].

(** [{}]: a new empty object. *)
Definition new_object : M loc := fun s =>
  let l := fresh (dom (objects s)) in
  mkRes (inr l) (mkStore (<[l := ∅]> (objects s)) (bindings s) (currentBinding s)) [].

(** [new Binding()]. *)
Definition new_binding : M loc := fun s =>
  let b := fresh (dom (bindings s)) in
  mkRes (inr b)
        (mkStore (objects s) (<[b := mkBinding None None]> (bindings s))
                 (currentBinding s)) [].

Definition read_binding (b : loc) : M Binding := fun s =>
  match bindings s !! b with
  | Some x => mkRes (inr x) s []
  | None => mkRes (inl (TypeError "Cannot read property of undefined")) s []
  end.

Definition set_binary (b : loc) (spec : option ModuleSpec) : M unit :=
  modify (fun s =>
    mkStore (objects s)
            (<[b := mkBinding spec ((bindings s !! b) ≫= lib)]> (bindings s))
            (currentBinding s)).

Definition set_lib (b : loc) (l : loc) : M unit :=
  modify (fun s =>
    mkStore (objects s)
            (<[b := mkBinding ((bindings s !! b) ≫= binary) (Some l)]> (bindings s))
            (currentBinding s)).

Definition set_currentBinding (b : loc) : M unit :=
  modify (fun s => mkStore (objects s) (bindings s) (Some b)).

(** ** The host

    Everything [nbind.ts] obtains from Node.js: the [path] module,
    [require] and [require.resolve], [process], and the behaviour of the
    functions it is handed (the caller's callback, hooks stored on the
    preset object, [ccall]).  Host functions are described by their
    outcome: they may inspect the store and return or raise, and they do
    not write to it.
    [max_nesting] bounds how deeply the runtime-ready closures built by
    [initAsm] may call one another before the host raises a [RangeError]
    for its exhausted call stack. *)

Record Host := mkHost {
  extname : string -> string;
  dirname : string -> string;
  path_resolve : list string -> string;
  require_resolve : string -> option string;
  require_load : string -> Loaded;
  env_NODE_BINDINGS_COMPILED_DIR : option string;
  versions_node : string;
  platform : string;
  arch : string;
  cwd : string;
  max_nesting : nat;
  fn_outcome : nat -> list value -> Store -> error + value;
  cb_outcome : nat -> option error -> option loc -> Store -> option error
}.

(** Line feed, the separator of the attempted paths in the error message. *)
Definition LF : string := String (Ascii.ascii_of_nat 10) EmptyString.

(** [a || b] on strings read from the environment: unset and empty are falsy. *)
Definition or_default (o : option string) (d : string) : string :=
  match o with
  | Some s => if String.eqb s "" then d else s
  | None => d
  end.

Section Locator.

Variable h : Host.

(** Make list of possible paths for a single compiled output file name. *)
Definition makeModulePathList (root name : string) : list (list string) :=
  [ [ root; name ];
    [ root; "build"; name ];
    [ root; "build"; "Debug"; name ];
    [ root; "build"; "Release"; name ];
    [ root; "out"; "Debug"; name ];
    [ root; "Debug"; name ];
    [ root; "out"; "Release"; name ];
    [ root; "Release"; name ];
    [ root; "build"; "default"; name ];
    [ root;
      or_default (env_NODE_BINDINGS_COMPILED_DIR h) "compiled";
      versions_node h;
      platform h;
      arch h;
      name ] ].

(** [type FindCallback = (err, result?: ModuleSpec) => any]. *)
Definition FindCallback : Type := option error -> option ModuleSpec -> M unit.

(** [require.resolve(p)]: the resolved file name, or an exception. *)
Definition resolve (p : string) : M string :=
  emit (EvResolve p);;
  match require_resolve h p with
  | Some q => ret q
  | None => throw (mkError ("Cannot find module '" +:+ p +:+ "'") None)
  end.

(** First loop of [findCompiledModule]: if [basePath] has a known
    extension, check if it is a loadable module.  The callback runs inside
    the [try] block.  The result is either the spec returned to the caller,
    or the attempted paths and the spec list as the loop leaves it (a spec
    keeps the [path] assigned before its callback raised). *)
Fixpoint fast_path (basePath e : string) (specList : list ModuleSpec)
    (cb : FindCallback) (resolvedList : list string)
    : M (ModuleSpec + list string * list ModuleSpec) :=
  match specList with
  | [] => ret (inr (resolvedList, []))
  | spec :: rest =>
      if String.eqb e (ext spec) then
        r <- try_ (p <- resolve basePath;;
                   s <- try_ (cb None (Some (set_path spec p)));;
                   ret (set_path spec p, s));;
        match r with
        | inr (spec', inr _) => ret (inl spec')
        | inr (spec', inl _) =>
            r' <- fast_path basePath e rest cb (resolvedList ++ [basePath]);;
            match r' with
            | inl s => ret (inl s)
            | inr (l, specs) => ret (inr (l, spec' :: specs))
            end
        | inl _ =>
            r' <- fast_path basePath e rest cb (resolvedList ++ [basePath]);;
            match r' with
            | inl s => ret (inl s)
            | inr (l, specs) => ret (inr (l, spec :: specs))
            end
        end
      else
        r' <- fast_path basePath e rest cb resolvedList;;
        match r' with
        | inl s => ret (inl s)
        | inr (l, specs) => ret (inr (l, spec :: specs))
        end
  end.

(** Inner loop of the directory search: the paths of one spec. *)
Fixpoint try_paths (spec : ModuleSpec) (paths : list (list string))
    (cb : FindCallback) (resolvedList : list string)
    : M (ModuleSpec + list string) :=
  match paths with
  | [] => ret (inr resolvedList)
  | pathParts :: rest =>
      let resolvedPath := path_resolve h pathParts in
      r <- try_ (resolve resolvedPath);;
      match r with
      | inl _ => try_paths spec rest cb (resolvedList ++ [resolvedPath])
      | inr p => cb None (Some (set_path spec p));; ret (inl (set_path spec p))
      end
  end.

(** Outer loop of the directory search: try all possible subdirectories of
    [basePath], spec by spec. *)
Fixpoint dir_search (basePath : string) (specList : list ModuleSpec)
    (cb : FindCallback) (resolvedList : list string)
    : M (ModuleSpec + list string) :=
  match specList with
  | [] => ret (inr resolvedList)
  | spec :: rest =>
      r <- try_paths spec (makeModulePathList basePath (name spec)) cb resolvedList;;
      match r with
      | inl s => ret (inl s)
      | inr l => dir_search basePath rest cb l
      end
  end.

(** The error raised when every candidate failed. *)
Definition locate_error (resolvedList : list string) : error :=
  mkError ("Could not locate the bindings file. Tried:" +:+ LF +:+
           String.concat LF resolvedList)
          (Some resolvedList).

Definition findCompiledModule (basePath : string) (specList : list ModuleSpec)
    (cb : FindCallback) : M (option ModuleSpec) :=
  r <- fast_path basePath (extname h basePath) specList cb [];;
  match r with
  | inl spec => ret (Some spec)
  | inr (tried, specList') =>
      r' <- dir_search basePath specList' cb tried;;
      match r' with
      | inl spec => ret (Some spec)
      | inr resolvedList =>
          cb (Some (locate_error resolvedList)) None;;
          ret None
      end
  end.

(** The two kinds of compiled binary [find] looks for. *)
Definition registry : list ModuleSpec :=
  [ mkSpec node ".node" "nbind.node" None;
    mkSpec emcc ".js" "nbind.js" None ].

(** [(basePath != callback && basePath) || process.cwd()]. *)
Definition root_of (basePath : option string) : string :=
  or_default basePath (cwd h).

(** Find compiled C++ binary under the given path, or under the current
    working directory. *)
Definition find (basePath : option string) (cb : FindCallback)
    : M (option ModuleSpec) :=
  findCompiledModule (root_of basePath) registry cb.

(** Default callback that throws any error given to it. *)
Definition find_rethrow : FindCallback := fun err _ =>
  match err with
  | Some e => throw e
  | None => ret tt
  end.

End Locator.

(** ** The initializer *)

Section Initializer.

Variable h : Host.

(** [callback(err, result)] for the completion callback of [init]. *)
Definition call_callback (cb : callback) (err : option error)
    (result : option loc) : M unit :=
  s <- get_store;;
  emit (EvCallback cb err result s);;
  match cb with
  | rethrow =>
      match err with
      | Some e => throw e
      | None => ret tt
      end
  | user_callback id =>
      match cb_outcome h id err result s with
      | Some e => throw e
      | None => ret tt
      end
  end.

(** A call of an opaque host function. *)
Definition call_host (id : nat) (args : list value) : M value :=
  s <- get_store;;
  emit (EvCall id args);;
  match fn_outcome h id args s with
  | inl e => throw e
  | inr v => ret v
  end.

(** Called from asm.js during init to get current module:
    [currentBinding.lib]. *)
Definition getLib : M (option loc) :=
  s <- get_store;;
  match currentBinding s with
  | None => throw (TypeError "Cannot read property 'lib' of undefined")
  | Some b => x <- read_binding b;; ret (lib x)
  end.

(** [v(...args)].  [n] is the number of runtime-ready closures that may
    still be entered.  The closure bodies are those of [initAsm]:

    - [FLocateFile]:
      [path.resolve(path.dirname(binding.binary.path), name)];
    - [FRuntimeInitialized]: call the previous hook if there is one, then
      [lib.ccall('nbind_init')] under [try]; report the exception, or
      report the binding. *)
Fixpoint call_value (n : nat) (v : value) (args : list value) : M value :=
  match v with
  | VFun (FHost id) => call_host id args
  | VFun (FLocateFile binding) =>
      x <- read_binding binding;;
      match binary x ≫= path, args with
      | Some p, VStr file :: _ =>
          ret (VStr (path_resolve h [dirname h p; file]))
      | _, _ => throw (TypeError "Path must be a string")
      end
  | VFun (FRuntimeInitialized runtimeInitialized l binding cb) =>
      match n with
      | O => throw (mkError "Maximum call stack size exceeded" None)
      | S n' =>
          (if truthy runtimeInitialized
           then call_value n' runtimeInitialized args
           else ret VUndefined);;
          r <- try_ (ccall <- get_prop l "ccall";;
                     call_value n' ccall [VStr "nbind_init"]);;
          match r with
          | inl err => call_callback cb (Some err) None;; ret VUndefined
          | inr _ => call_callback cb None (Some binding);; ret VUndefined
          end
      end
  | _ => throw (TypeError "not a function")
  end.

(** The loaded bundle signals that its runtime is ready:
    [if(Module.onRuntimeInitialized) Module.onRuntimeInitialized()] on the
    object obtained from [getLib()]. *)
Definition runtime_ready : M unit :=
  m <- getLib;;
  match m with
  | None => throw (TypeError "Cannot read property of undefined")
  | Some l =>
      f <- get_prop l "onRuntimeInitialized";;
      if truthy f then call_value (S (max_nesting h)) f [];; ret tt else ret tt
  end.

(** The top-level code of a loaded file. *)
Fixpoint run_script (acts : list Action) : M unit :=
  match acts with
  | [] => ret tt
  | ActDefine key v :: rest =>
      m <- getLib;;
      match m with
      | None => throw (TypeError "Cannot set property of undefined")
      | Some l => set_prop l key v
      end;;
      run_script rest
  | ActReady :: rest => runtime_ready;; run_script rest
  | ActRaise e :: _ => throw e
  end.

(** [require(p)]. *)
Definition require (p : string) : M value :=
  emit (EvRequire p);;
  match require_load h p with
  | LoadRaises e => throw e
  | LoadValue script exports => run_script script;; ret exports
  end.

(** [require(binding.binary.path)]. *)
Definition require_binary (binding : loc) : M value :=
  x <- read_binding binding;;
  match binary x ≫= path with
  | Some p => require p
  | None => throw (TypeError "missing path")
  end.

(** [binding.lib], which both branches dereference. *)
Definition binding_lib (binding : loc) : M loc :=
  x <- read_binding binding;;
  match lib x with
  | Some l => ret l
  | None => throw (TypeError "Cannot set property of undefined")
  end.

(** Initialize asm.js module. *)
Definition initAsm (binding : loc) (cb : callback) : M unit :=
  l <- binding_lib binding;;
  locateFile <- get_prop l "locateFile";;
  set_prop l "locateFile"
    (if truthy locateFile then locateFile else VFun (FLocateFile binding));;
  runtimeInitialized <- get_prop l "onRuntimeInitialized";;
  set_prop l "onRuntimeInitialized"
    (VFun (FRuntimeInitialized runtimeInitialized l binding cb));;
  set_currentBinding binding;;
  require_binary binding;;
  ret tt.

(** [Object.keys(lib).forEach(key => binding.lib[key] = lib[key])]. *)
Fixpoint copy_keys (binding src : loc) (keys : list string) : M unit :=
  match keys with
  | [] => ret tt
  | key :: rest =>
      dst <- binding_lib binding;;
      v <- get_prop src key;;
      set_prop dst key v;;
      copy_keys binding src rest
  end.

Definition load_error : error := mkError "Error loading addon" None.

(** Initialize native Node.js addon. *)
Definition initNode (binding : loc) (cb : callback) : M unit :=
  loaded <- require_binary binding;;
  if negb (truthy loaded) || negb (String.eqb (typeof loaded) "object") then
    call_callback cb (Some load_error) None
  else
    match loaded with
    | VObj src =>
        keys <- object_keys src;;
        copy_keys binding src keys;;
        call_callback cb None (Some binding)
    | _ => call_callback cb None (Some binding)
    end.

(** The callback [init] hands to [find]. *)
Definition init_found (binding : loc) (preset : option loc) (cb : callback)
    : FindCallback := fun err found =>
  match err with
  | Some e => call_callback cb (Some e) None
  | None =>
      set_binary binding found;;
      l <- match preset with
           | Some l => ret l
           | None => new_object
           end;;
      set_lib binding l;;
      match found with
      | None => throw (TypeError "Cannot read property 'type' of undefined")
      | Some spec =>
          match type spec with
          | emcc => initAsm binding cb
          | node => initNode binding cb
          end
      end
  end.

(** [if(typeof(callback) != 'function') callback = rethrow]; [None] stands
    for a missing callback argument. *)
Definition to_callback (cb : option nat) : callback :=
  match cb with
  | Some id => user_callback id
  | None => rethrow
  end.

(** Initialize compiled C++ binary under the given path (or the current
    working directory), merging its API into the given object if there is
    one. *)
Definition init (basePath : option string) (preset : option loc)
    (cb : option nat) : M loc :=
  let callback := to_callback cb in
  binding <- new_binding;;
  find h basePath (init_found binding preset callback);;
  ret binding.

End Initializer.

(** ** The [Binding] class *)

Section BindingClass.

Variable h : Host.

(** Bind a value type (class with a fromJS method) to an equivalent C++
    type: [this.lib._nbind_value(name, proto)] for an asm.js library,
    else [this.lib.NBind.bind_value(name, proto)] if the library has
    [NBind], else nothing.  Only objects of the store have properties
    here, so a truthy [NBind] that is not one has no [bind_value]. *)
Definition Binding_bind (binding : loc) (name : string) (proto : value)
    : M unit :=
  l <- binding_lib binding;;
  f <- get_prop l "_nbind_value";;
  if truthy f then
    call_value h (S (max_nesting h)) f [VStr name; proto];; ret tt
  else
    nb <- get_prop l "NBind";;
    if truthy nb then
      match nb with
      | VObj o =>
          g <- get_prop o "bind_value";;
          call_value h (S (max_nesting h)) g [VStr name; proto];; ret tt
      | _ => throw (TypeError "this.lib.NBind.bind_value is not a function")
      end
    else ret tt.

End BindingClass.

(** ** A concrete host for worked examples

    POSIX-style paths under an absolute root, a finite set of files that
    [require.resolve] finds, and tables for the loader and for the host
    functions. *)

Fixpoint after_last (c : Ascii.ascii) (s : string) : option string :=
  match s with
  | EmptyString => None
  | String a r =>
      match after_last c r with
      | Some t => Some t
      | None => if Ascii.eqb a c then Some r else None
      end
  end.

Fixpoint before_last (c : Ascii.ascii) (s : string) : option string :=
  match s with
  | EmptyString => None
  | String a r =>
      match before_last c r with
      | Some t => Some (String a t)
      | None => if Ascii.eqb a c then Some EmptyString else None
      end
  end.

Definition posix_basename (p : string) : string :=
  default p (after_last "/"%char p).

Definition posix_extname (p : string) : string :=
  match posix_basename p with
  | EmptyString => ""
  | String _ r =>
      match after_last "."%char r with
      | Some e => "." +:+ e
      | None => ""
      end
  end.

Definition posix_dirname (p : string) : string :=
  match before_last "/"%char p with
  | Some "" => "/"
  | Some d => d
  | None => "."
  end.

Definition posix_join (parts : list string) : string := String.concat "/" parts.

Definition lookup_file (files : list string) (p : string) : option string :=
  if existsb (String.eqb p) files then Some p else None.

Definition fixture_host (files : list string) (load : string -> Loaded)
    (fns : nat -> list value -> Store -> error + value)
    (cbs : nat -> option error -> option loc -> Store -> option error) : Host :=
  {| extname := posix_extname;
     dirname := posix_dirname;
     path_resolve := posix_join;
     require_resolve := lookup_file files;
     require_load := load;
     env_NODE_BINDINGS_COMPILED_DIR := None;
     versions_node := "6.2.0";
     platform := "linux";
     arch := "x64";
     cwd := "/home/user";
     max_nesting := 8;
     fn_outcome := fns;
     cb_outcome := cbs |}.

Definition empty_store : Store := mkStore ∅ ∅ None.

(** Host functions and callbacks that always return normally. *)
Definition fns_ok : nat -> list value -> Store -> error + value :=
  fun _ _ _ => inr VUndefined.

Definition cbs_ok : nat -> option error -> option loc -> Store -> option error :=
  fun _ _ _ _ => None.

(** A loader that knows no file. *)
Definition load_none : string -> Loaded :=
  fun p => LoadRaises (mkError ("Cannot find module '" +:+ p +:+ "'") None).

(** * Vocabulary of the properties *)

(** ** Sequencing *)

(** [after evs r b]: the events [evs] happened, then the computation that
    produced [r]; if that one returned, the whole returns [b]. *)
Definition after {A B} (evs : list Event) (r : Res A) (b : B) : Res B :=
  mkRes (match outcome r with
         | inl e => inl e
         | inr _ => inr b
         end) (final r) (evs ++ events r).

(** ** The search order *)

Section SearchOrder.

Variable h : Host.

(** The priority-ordered cross product of spec and path template: each
    spec of the list, in order, with the resolved path of each of its
    templates, in order. *)
Definition candidates (basePath : string) (specList : list ModuleSpec)
    : list (ModuleSpec * string) :=
  flat_map (fun spec =>
              map (fun parts => (spec, path_resolve h parts))
                  (makeModulePathList h basePath (name spec)))
           specList.

(** Walk a candidate list up to the first path that resolves: the paths
    probed, and the hit (spec and resolved file name) if there is one. *)
Fixpoint scan (cands : list (ModuleSpec * string))
    : list string * option (ModuleSpec * string) :=
  match cands with
  | [] => ([], None)
  | (spec, rp) :: rest =>
      match require_resolve h rp with
      | Some p => ([rp], Some (spec, p))
      | None => let '(probed, hit) := scan rest in (rp :: probed, hit)
      end
  end.

(** The attempts of the first loop when [basePath] itself does not load:
    one per spec whose extension is that of [basePath]. *)
Definition fast_tries (basePath : string) (specList : list ModuleSpec)
    : list string :=
  map (fun _ => basePath)
      (filter (fun spec => String.eqb (extname h basePath) (ext spec) = true)
              specList).

End SearchOrder.

(** ** Fixtures for the locator *)

Definition node_spec : ModuleSpec := mkSpec node ".node" "nbind.node" None.
Definition emcc_spec : ModuleSpec := mkSpec emcc ".js" "nbind.js" None.

(** A project with both a Debug and a Release build of the addon. *)
Definition host_debug_and_release : Host :=
  fixture_host ["/proj/build/Debug/nbind.node"; "/proj/build/Release/nbind.node"]
               load_none fns_ok cbs_ok.

(** A project with a Release build only. *)
Definition host_release_only : Host :=
  fixture_host ["/proj/build/Release/nbind.node"] load_none fns_ok cbs_ok.

(** A host on which nothing resolves. *)
Definition host_nothing : Host := fixture_host [] load_none fns_ok cbs_ok.

(** A project whose root is the addon file itself. *)
Definition host_literal : Host :=
  fixture_host ["/proj/addon.node"] load_none fns_ok cbs_ok.

(** A project whose only build is under an overridden compiled directory:
    [NODE_BINDINGS_COMPILED_DIR] is set to "prebuilt". *)
Definition prebuilt_addon : string := "/proj/prebuilt/6.2.0/linux/x64/nbind.node".

Definition host_prebuilt : Host :=
  {| extname := posix_extname;
     dirname := posix_dirname;
     path_resolve := posix_join;
     require_resolve := lookup_file [prebuilt_addon];
     require_load := load_none;
     env_NODE_BINDINGS_COMPILED_DIR := Some "prebuilt";
     versions_node := "6.2.0";
     platform := "linux";
     arch := "x64";
     cwd := "/home/user";
     max_nesting := 8;
     fn_outcome := fns_ok;
     cb_outcome := cbs_ok |}.

(** The relative path templates, without root and file name. *)
Definition templates (h : Host) : list (list string) :=
  [ [];
    ["build"];
    ["build"; "Debug"];
    ["build"; "Release"];
    ["out"; "Debug"];
    ["Debug"];
    ["out"; "Release"];
    ["Release"];
    ["build"; "default"];
    [or_default (env_NODE_BINDINGS_COMPILED_DIR h) "compiled";
     versions_node h; platform h; arch h] ].

(** Whether an extension is that of a registry entry. *)
Definition known_ext (e : string) : bool :=
  existsb (fun spec => String.eqb e (ext spec)) registry.

(** ** The claim of C1 *)

(** The claim of C1 at a host and a root: whenever the Debug and the
    Release build of one registry entry both resolve, the search returns
    the Release one. *)
Definition release_preferred (h : Host) (root : string) : Prop :=
  forall spec pD pR cb s,
    spec ∈ registry ->
    require_resolve h (path_resolve h [root; "build"; "Release"; name spec]) = Some pR ->
    require_resolve h (path_resolve h [root; "build"; "Debug"; name spec]) = Some pD ->
    outcome (cb None (Some (set_path spec pR)) s) = inr tt ->
    outcome (findCompiledModule h root registry cb s) = inr (Some (set_path spec pR)).

(** ** Stores along [init] *)

(** Outcome of the completion callback, entered with store [s]. *)
Definition callback_result (h : Host) (cb : callback) (err : option error)
    (result : option loc) (s : Store) : error + unit :=
  match cb with
  | rethrow =>
      match err with
      | Some e => inl e
      | None => inr tt
      end
  | user_callback id =>
      match cb_outcome h id err result s with
      | Some e => inl e
      | None => inr tt
      end
  end.

(** The store [init_found] hands to [initNode] or [initAsm]: the binding
    holds the located spec and its exports object, which is the preset
    object or a new empty one. *)
Definition exports_loc (preset : option loc) (s : Store) : loc :=
  match preset with
  | Some l => l
  | None => fresh (dom (objects s))
  end.

Definition prepared (b : loc) (found : ModuleSpec) (preset : option loc)
    (s : Store) : Store :=
  mkStore (match preset with
           | Some _ => objects s
           | None => <[exports_loc preset s := ∅]> (objects s)
           end)
          (<[b := mkBinding (Some found) (Some (exports_loc preset s))]> (bindings s))
          (currentBinding s).

(** The store after the [forEach] of [initNode] over [keys]. *)
Fixpoint copy_props (src dst : loc) (keys : list string) (s : Store) : Store :=
  match keys with
  | [] => s
  | key :: rest =>
      copy_props src dst rest
        (write_prop dst key (default VUndefined (obj_of s src !! key)) s)
  end.

(** All keys of an object, as [Object.keys] lists them. *)
Definition keys_of (s : Store) (l : loc) : list string :=
  map fst (map_to_list (obj_of s l)).

(** ** What [find] does for [init] *)

(** The binding that [init] creates, and the store it starts the search
    with. *)
Definition new_loc (s : Store) : loc := fresh (dom (bindings s)).

Definition with_binding (s : Store) : Store :=
  mkStore (objects s) (<[new_loc s := mkBinding None None]> (bindings s))
          (currentBinding s).

(** [find] under [basePath] locates [found]: whatever callback it is given
    (and which returns), it probes some paths, hands [found] to the
    callback and returns it. *)
Definition locates (h : Host) (basePath : option string) (found : ModuleSpec)
    : Prop :=
  exists probes, forall cb s,
    outcome (cb None (Some found) s) = inr tt ->
    find h basePath cb s =
    after (map EvResolve probes) (cb None (Some found) s) (Some found).

(** [find] under [basePath] locates [found] in the directory search, where
    the callback runs outside any [try]: whatever the callback does,
    [find] probes some paths and hands [found] to the callback. *)
Definition searched (h : Host) (basePath : option string) (found : ModuleSpec)
    : Prop :=
  exists probes, forall cb s,
    find h basePath cb s =
    after (map EvResolve probes) (cb None (Some found) s) (Some found).

(** [find] under [basePath] finds nothing and reports [attempted]. *)
Definition exhausts (h : Host) (basePath : option string)
    (attempted : list string) : Prop :=
  forall cb s,
    find h basePath cb s =
    after (map EvResolve attempted) (cb (Some (locate_error attempted)) None s)
          None.

(** ** The runtime-ready closure *)

(** [o[key]] as a value. *)
Definition prop (s : Store) (l : loc) (key : string) : value :=
  default VUndefined (obj_of s l !! key).

(** The runtime-ready closure that [initAsm] installs. *)
Definition ready_hook (orig : value) (l b : loc) (cb : callback) : value :=
  VFun (FRuntimeInitialized orig l b cb).

(** The store in which [initAsm] loads the bundle: [locateFile] defaulted,
    the runtime-ready hook wrapped, the binding published as current. *)
Definition asm_installed (b l : loc) (cb : callback) (s : Store) : Store :=
  let s1 := write_prop l "locateFile"
              (if truthy (prop s l "locateFile") then prop s l "locateFile"
               else VFun (FLocateFile b)) s in
  let s2 := write_prop l "onRuntimeInitialized"
              (ready_hook (prop s1 l "onRuntimeInitialized") l b cb) s1 in
  mkStore (objects s2) (bindings s2) (Some b).

(** ** Final stores *)

(** The store after a successful native initialization. *)
Definition native_ready (found : ModuleSpec) (preset : option loc) (src : loc)
    (s : Store) : Store :=
  let s4 := prepared (new_loc s) found preset (with_binding s) in
  copy_props src (exports_loc preset s) (keys_of s4 src) s4.

(** The store after [init] has started loading a bundle. *)
Definition asm_loading (found : ModuleSpec) (preset : option loc)
    (cb : option nat) (s : Store) : Store :=
  asm_installed (new_loc s) (exports_loc preset s) (to_callback cb)
                (prepared (new_loc s) found preset (with_binding s)).

(** ** Reports *)

(** A call of the completion callback. *)
Definition is_report (ev : Event) : bool :=
  match ev with
  | EvCallback _ _ _ _ => true
  | _ => false
  end.

(** Both fields of the binding are set. *)
Definition populated (s : Store) (b : loc) : Prop :=
  exists found l, bindings s !! b = Some (mkBinding (Some found) (Some l)).

(** A well-formed report: an error and no binding, or no error and a
    binding which is populated in the store the callback is entered with. *)
Definition good_report (ev : Event) : Prop :=
  match ev with
  | EvCallback _ (Some _) None _ => True
  | EvCallback _ None (Some b) seen => populated seen b
  | _ => False
  end.

(** The callback is invoked exactly once, with a well-formed report. *)
Definition reported_once (evs : list Event) : Prop :=
  exists ev, filter (fun e => is_report e = true) evs = [ev] /\ good_report ev.

(** The report of [initNode] after a load that returned [v] and left the
    store [s]: the load error if [v] is not an object; otherwise the
    binding [b], in the store where the properties of [v] are copied to
    the exports [l]. *)
Definition native_report (cb : callback) (b l : loc) (v : value) (s : Store)
    : Event :=
  match v with
  | VObj src =>
      EvCallback cb None (Some b) (copy_props src l (keys_of s src) s)
  | _ => EvCallback cb (Some load_error) None s
  end.

(** The callback returns from the call that [ev] records. *)
Definition returns_from (h : Host) (ev : Event) : Prop :=
  match ev with
  | EvCallback cb err res seen => callback_result h cb err res seen = inr tt
  | _ => True
  end.

(** The completion callback never raises. *)
Definition quiet (h : Host) (cb : option nat) : Prop :=
  forall err result s, callback_result h (to_callback cb) err result s = inr tt.

(** The completion callback returns when it is handed a binding.  The
    default [rethrow] does. *)
Definition returns_on_success (h : Host) (cb : option nat) : Prop :=
  forall b s, callback_result h (to_callback cb) None (Some b) s = inr tt.

(** Values other than the runtime-ready closures of [initAsm]. *)
Definition plain (v : value) : bool :=
  match v with
  | VFun (FRuntimeInitialized _ _ _ _) => false
  | _ => true
  end.

(** ** Fixtures for the initializer *)

(** The exports of the compiled addon, at location 11 of the store, and an
    object the caller passes as preset, at location 12. *)
Definition addon_exports : gmap string value :=
  <["add" := VFun (FHost 7)]> (<["version" := VStr "1.0"]> ∅).

Definition preset_object : gmap string value :=
  <["debug" := VBool true]> (<["version" := VStr "0.9"]> ∅).

Definition store_with_addon : Store :=
  mkStore (<[11%positive := addon_exports]> (<[12%positive := preset_object]> ∅))
          ∅ None.

Definition release_addon : string := "/proj/build/Release/nbind.node".

Definition load_addon (p : string) : Loaded :=
  if String.eqb p release_addon then LoadValue [] (VObj 11%positive)
  else load_none p.

(** A project with a Release build of the addon that loads. *)
Definition host_addon : Host :=
  fixture_host [release_addon] load_addon fns_ok cbs_ok.

(** The same project, with an addon that the loader rejects. *)
Definition host_broken_addon : Host :=
  fixture_host [release_addon] load_none fns_ok cbs_ok.

Definition found_addon : ModuleSpec := set_path node_spec release_addon.

(** A root that is the addon file itself; the file resolves, but the
    loader raises on it (a binary built for another runtime). *)
Definition abi_error : error := mkError "Module version mismatch" None.

Definition host_mismatch : Host :=
  fixture_host ["/proj/nbind.node"] (fun _ => LoadRaises abi_error) fns_ok cbs_ok.

(** ** Detached exports (C7) *)

(** The exports object [l] of a binding is detached from the loaded
    module's object [src] in store [s]: they are different objects, every
    entry of the module is an entry of the exports, and setting or
    deleting a key of either leaves the other as it is. *)
Definition detached (s : Store) (l src : loc) : Prop :=
  l <> src /\
  (forall k v, obj_of s src !! k = Some v -> obj_of s l !! k = Some v) /\
  (forall k v, obj_of (write_prop l k v s) src = obj_of s src) /\
  (forall k, obj_of (remove_prop l k s) src = obj_of s src) /\
  (forall k v, obj_of (write_prop src k v s) l = obj_of s l) /\
  (forall k, obj_of (remove_prop src k s) l = obj_of s l).

(** The claim of C7 for one call of [init] that loads the object [src]:
    the call returns a binding whose exports are detached from [src]. *)
Definition exports_detached (h : Host) (basePath : option string)
    (preset : option loc) (cb : option nat) (s : Store) (src : loc) : Prop :=
  let r := init h basePath preset cb s in
  exists b x l,
    outcome r = inr b /\
    bindings (final r) !! b = Some x /\
    lib x = Some l /\
    detached (final r) l src.

(** ** Fixtures for the asm.js branch *)

(** A caller-supplied hook: a host function, or none. *)
Definition hook_value (o : option nat) : value :=
  match o with
  | Some i => VFun (FHost i)
  | None => VUndefined
  end.

(** Fixture: a bundle whose bootstrap function (host function 3) raises,
    loaded into a preset object that carries a runtime-ready hook (host
    function 5). *)
Definition bundle_path : string := "/proj/nbind.js".

Definition found_bundle : ModuleSpec := set_path emcc_spec bundle_path.

Definition load_bundle (p : string) : Loaded :=
  if String.eqb p bundle_path then LoadValue [] VUndefined else load_none p.

Definition boot_error : error := mkError "nbind_init aborted" None.

Definition fns_boot_fails : nat -> list value -> Store -> error + value :=
  fun id _ _ => if Nat.eqb id 3 then inl boot_error else inr VUndefined.

Definition host_bundle_fails : Host :=
  fixture_host [bundle_path] load_bundle fns_boot_fails cbs_ok.

Definition host_bundle : Host :=
  fixture_host [bundle_path] load_bundle fns_ok cbs_ok.

Definition store_with_hook : Store :=
  mkStore (<[12%positive := <["onRuntimeInitialized" := VFun (FHost 5)]> ∅]> ∅)
          ∅ None.

(** ** Reported errors *)

(** The error argument of each call of the completion callback, in order. *)
Definition reported_errors (evs : list Event) : list (option error) :=
  omap (fun ev => match ev with
                  | EvCallback _ err _ _ => Some err
                  | _ => None
                  end) evs.

(** * Vocabulary of the further properties *)

(** [s] is the registry entry [r], whatever its [path]. *)
Definition same_entry (r s : ModuleSpec) : Prop :=
  type s = type r /\ ext s = ext r /\ name s = name r.

(** A computation that, if it returns, returns a value satisfying [P]. *)
Definition returns_only {A} (P : A -> Prop) (r : Res A) : Prop :=
  match outcome r with
  | inl _ => True
  | inr a => P a
  end.

(** The top-level code of a bundle that only defines properties on the
    module object, and the store it leaves. *)
Definition defines (kvs : list (string * value)) : list Action :=
  map (fun kv => ActDefine kv.1 kv.2) kvs.

Definition write_all (l : loc) (kvs : list (string * value)) (s : Store) : Store :=
  foldl (fun st kv => write_prop l kv.1 kv.2 st) s kvs.

(** Function values. *)
Definition is_function (v : value) : bool :=
  match v with
  | VFun _ => true
  | _ => false
  end.

(** A [find] callback that returns whatever it is handed. *)
Definition accept_all : FindCallback := fun _ _ => ret tt.

(** ** Fixtures for the further properties *)

(** Three bindings: one on an asm.js library (which also has [NBind]),
    one on a native library, one on a library with no value-binding entry
    point. *)
Definition store_bound : Store :=
  mkStore
    (<[21%positive := <["_nbind_value" := VFun (FHost 8)]> (<["NBind" := VObj 22%positive]> ∅)]>
     (<[22%positive := <["bind_value" := VFun (FHost 9)]> ∅]>
      (<[23%positive := <["NBind" := VObj 22%positive]> ∅]>
       (<[24%positive := ∅]> ∅))))
    (<[1%positive := mkBinding (Some found_bundle) (Some 21%positive)]>
     (<[2%positive := mkBinding (Some found_addon) (Some 23%positive)]>
      (<[3%positive := mkBinding (Some found_addon) (Some 24%positive)]> ∅)))
    None.

(** An addon whose exports hold [NBind], at location 11, with the [NBind]
    object at location 13. *)
Definition store_with_nbind : Store :=
  mkStore (<[11%positive := <["NBind" := VObj 13%positive]> ∅]>
           (<[13%positive := <["bind_value" := VFun (FHost 9)]> ∅]> ∅))
          ∅ None.

(** A project whose addon loads to [null]. *)
Definition host_null_addon : Host :=
  fixture_host [release_addon] (fun _ => LoadValue [] VNull) fns_ok cbs_ok.

(** A project with the bundle at its root and the addon under
    build/Release. *)
Definition host_both_kinds : Host :=
  fixture_host [bundle_path; release_addon] load_none fns_ok cbs_ok.

(** A bundle that defines its entry points while it is loaded, and one
    that also signals readiness then. *)
Definition bundle_entry_points : list (string * value) :=
  [("ccall", VFun (FHost 3)); ("_nbind_value", VFun (FHost 8))].

Definition host_bundle_defining : Host :=
  fixture_host [bundle_path]
    (fun _ => LoadValue (defines bundle_entry_points) VUndefined) fns_ok cbs_ok.


(** A host on which the caller's hook (host function 5) raises. *)
Definition hook_error : error := mkError "hook failed" None.

Definition fns_hook_fails : nat -> list value -> Store -> error + value :=
  fun id _ _ => if Nat.eqb id 5 then inl hook_error else inr VUndefined.

Definition host_bundle_hook_fails : Host :=
  fixture_host [bundle_path] load_bundle fns_hook_fails cbs_ok.

(** An options object with a runtime-ready hook and [ccall]. *)
Definition store_with_hook_ccall : Store :=
  mkStore (<[12%positive := <["onRuntimeInitialized" := VFun (FHost 5)]>
                              (<["ccall" := VFun (FHost 3)]> ∅)]> ∅)
          ∅ None.

(** A [find] callback that raises whatever it is handed. *)
Definition refuse_all : FindCallback := fun _ _ => throw boot_error.

(** The probes of the directory search up to build/Release. *)
Definition probes_to_release : list string :=
  ["/proj/nbind.node"; "/proj/build/nbind.node";
   "/proj/build/Debug/nbind.node"; release_addon].

(** ** The claim of C8 *)

(** The claim of C8 for one readiness signal in store [s]: the bootstrap
    function is called with 'nbind_init' and the callback is invoked. *)
Definition bootstrap_reported (h : Host) (s : Store) : Prop :=
  let evs := events (runtime_ready h s) in
  (exists j, EvCall j [VStr "nbind_init"] ∈ evs) /\
  (exists ev, ev ∈ evs /\ is_report ev = true).

(** A bundle that defines its entry points while it is loaded, on a host
    where the caller's hook (host function 5) raises. *)
Definition host_defining_hook_fails : Host :=
  fixture_host [bundle_path]
    (fun _ => LoadValue (defines bundle_entry_points) VUndefined)
    fns_hook_fails cbs_ok.

(** ** The shape of a report *)

(** An event that is not a malformed report: a call of the completion
    callback passes an error and no binding, or a binding and no error. *)
Definition shaped (ev : Event) : Prop :=
  match ev with
  | EvCallback _ (Some _) None _ => True
  | EvCallback _ None (Some _) _ => True
  | EvCallback _ _ _ _ => False
  | _ => True
  end.

(** * Properties *)

(** ** Reasoning about the monad *)

Lemma bind_unfold {A B} (m : M A) (k : A -> M B) s :
  bind m k s =
  match outcome (m s) with
  | inl e => mkRes (inl e) (final (m s)) (events (m s))
  | inr a =>
      mkRes (outcome (k a (final (m s)))) (final (k a (final (m s))))
            (events (m s) ++ events (k a (final (m s))))
  end.
Proof. reflexivity. Qed.

Lemma res_eta {A} (r : Res A) : mkRes (outcome r) (final r) (events r) = r.
Proof. by destruct r. Qed.

(** ** The locator *)

Section LocatorFacts.

Variable h : Host.

Lemma scan_app a b :
  scan h (a ++ b) =
  match scan h a with
  | (pa, Some x) => (pa, Some x)
  | (pa, None) => let '(pb, hit) := scan h b in (pa ++ pb, hit)
  end.
Proof.
  induction a as [|[spec rp] a IH]; simpl.
  - by destruct (scan h b).
  - destruct (require_resolve h rp); [done|].
    rewrite IH. destruct (scan h a) as [pa [x|]]; [done|].
    by destruct (scan h b).
Qed.

Lemma scan_all_fail cands :
  Forall (fun c => require_resolve h c.2 = None) cands ->
  scan h cands = (map snd cands, None).
Proof.
  induction 1 as [|[spec rp] l Hx _ IH]; simpl in *; [done|].
  by rewrite Hx, IH.
Qed.

Lemma scan_first_hit pre spec rp p post :
  Forall (fun c => require_resolve h c.2 = None) pre ->
  require_resolve h rp = Some p ->
  scan h (pre ++ (spec, rp) :: post) = (map snd pre ++ [rp], Some (spec, p)).
Proof.
  intros Hpre Hp. rewrite scan_app, (scan_all_fail _ Hpre). simpl.
  by rewrite Hp.
Qed.

Lemma try_resolve_none p s :
  require_resolve h p = None ->
  try_ (resolve h p) s =
  mkRes (inr (inl (mkError ("Cannot find module '" +:+ p +:+ "'") None))) s
        [EvResolve p].
Proof. intros H. unfold try_, resolve, bind, emit; simpl. by rewrite H. Qed.

Lemma try_resolve_some p q s :
  require_resolve h p = Some q ->
  try_ (resolve h p) s = mkRes (inr (inr q)) s [EvResolve p].
Proof. intros H. unfold try_, resolve, bind, emit; simpl. by rewrite H. Qed.

(** The inner loop probes exactly the scanned paths, in order; a hit is
    handed to the callback at once. *)
Lemma try_paths_scan spec paths cb tried s :
  try_paths h spec paths cb tried s =
  match scan h (map (fun parts => (spec, path_resolve h parts)) paths) with
  | (probed, None) => mkRes (inr (inr (tried ++ probed))) s (map EvResolve probed)
  | (probed, Some (spec', p)) =>
      after (map EvResolve probed) (cb None (Some (set_path spec' p)) s)
            (inl (set_path spec' p))
  end.
Proof.
  revert tried. induction paths as [|parts paths IH]; intros tried; simpl.
  - by rewrite app_nil_r.
  - rewrite bind_unfold.
    destruct (require_resolve h (path_resolve h parts)) as [p|] eqn:Hr.
    + rewrite (try_resolve_some _ _ _ Hr). simpl.
      unfold after, bind, ret; simpl.
      destruct (cb None (Some (set_path spec p)) s) as [[e|[]] f evs]; simpl;
        by rewrite ?app_nil_r.
    + rewrite (try_resolve_none _ _ Hr). simpl. rewrite IH.
      destruct (scan h _) as [probed [[spec' p]|]]; simpl.
      * unfold after; simpl. reflexivity.
      * by rewrite <- app_assoc.
Qed.

(** The whole directory search is one scan of [candidates]. *)
Lemma dir_search_scan basePath specList cb tried s :
  dir_search h basePath specList cb tried s =
  match scan h (candidates h basePath specList) with
  | (probed, None) => mkRes (inr (inr (tried ++ probed))) s (map EvResolve probed)
  | (probed, Some (spec', p)) =>
      after (map EvResolve probed) (cb None (Some (set_path spec' p)) s)
            (inl (set_path spec' p))
  end.
Proof.
  revert tried s. induction specList as [|spec rest IH]; intros tried s.
  - simpl. by rewrite app_nil_r.
  - cbn [dir_search candidates flat_map].
    rewrite bind_unfold, try_paths_scan, scan_app.
    destruct (scan h (map _ _)) as [pa [[spec' p]|]].
    + unfold after; cbn [outcome final events].
      destruct (cb None (Some (set_path spec' p)) s) as [[e|[]] f evs];
        cbn [outcome final events ret]; by rewrite ?app_nil_r.
    + cbn [outcome final events]. rewrite IH. fold (candidates h basePath rest).
      destruct (scan h (candidates h basePath rest)) as [pb [[spec' p]|]].
      * unfold after; cbn [outcome final events]. by rewrite map_app, app_assoc.
      * cbn [outcome final events]. by rewrite map_app, app_assoc.
Qed.

Lemma fast_path_fail basePath specList cb tried s :
  fast_tries h basePath specList = [] \/ require_resolve h basePath = None ->
  fast_path h basePath (extname h basePath) specList cb tried s =
  mkRes (inr (inr (tried ++ fast_tries h basePath specList, specList))) s
        (map EvResolve (fast_tries h basePath specList)).
Proof.
  unfold fast_tries. revert tried.
  induction specList as [|spec rest IH]; intros tried Hf.
  - simpl. by rewrite app_nil_r.
  - cbn [fast_path]. rewrite filter_cons.
    destruct (decide (String.eqb (extname h basePath) (ext spec) = true)) as [Heq|Hne].
    + rewrite Heq. destruct Hf as [Hf|Hf].
      { rewrite filter_cons in Hf. by rewrite decide_True in Hf. }
      rewrite bind_unfold.
      assert (Ht : forall A (k : string -> M A),
                 try_ (bind (resolve h basePath) k) s =
                 mkRes (inr (inl (mkError ("Cannot find module '" +:+ basePath +:+ "'") None)))
                       s [EvResolve basePath]).
      { intros A k. unfold try_, resolve, bind, emit; simpl. by rewrite Hf. }
      rewrite Ht. cbn [outcome final events].
      rewrite bind_unfold, IH by (by right).
      cbn [outcome final events ret map]. by rewrite app_nil_r, <- app_assoc.
    + apply not_true_is_false in Hne as Hne'. rewrite Hne'.
      rewrite bind_unfold, IH.
      * cbn [outcome final events ret]. by rewrite app_nil_r.
      * destruct Hf as [Hf|Hf]; [left|by right].
        rewrite filter_cons in Hf. by rewrite decide_False in Hf.
Qed.

(** When the first loop finds nothing, [findCompiledModule] is one scan of
    the candidates followed by a single call of the callback. *)
Lemma findCompiledModule_scan basePath specList cb s :
  fast_tries h basePath specList = [] \/ require_resolve h basePath = None ->
  findCompiledModule h basePath specList cb s =
  match scan h (candidates h basePath specList) with
  | (probed, None) =>
      let attempted := fast_tries h basePath specList ++ probed in
      after (map EvResolve attempted)
            (cb (Some (locate_error attempted)) None s) None
  | (probed, Some (spec, p)) =>
      after (map EvResolve (fast_tries h basePath specList ++ probed))
            (cb None (Some (set_path spec p)) s) (Some (set_path spec p))
  end.
Proof.
  intros Hf. unfold findCompiledModule.
  rewrite bind_unfold, (fast_path_fail _ _ _ _ _ Hf).
  cbn [outcome final events]. rewrite bind_unfold, dir_search_scan.
  destruct (scan h _) as [probed [[spec p]|]]; unfold after;
    cbn [outcome final events app].
  - destruct (cb None (Some (set_path spec p)) s) as [[e|[]] f evs];
      cbn [outcome final events ret];
      by rewrite ?app_nil_r, ?map_app, ?app_assoc.
  - rewrite bind_unfold.
    destruct (cb (Some _) None s) as [[e|[]] f evs];
      cbn [outcome final events ret];
      by rewrite ?app_nil_r, ?map_app, ?app_assoc.
Qed.

(** The first loop succeeds on the first spec with the extension of
    [basePath], provided [basePath] loads and the callback returns. *)
Lemma fast_path_hit basePath pre spec post cb tried p s :
  Forall (fun x => String.eqb (extname h basePath) (ext x) = false) pre ->
  String.eqb (extname h basePath) (ext spec) = true ->
  require_resolve h basePath = Some p ->
  outcome (cb None (Some (set_path spec p)) s) = inr tt ->
  fast_path h basePath (extname h basePath) (pre ++ spec :: post) cb tried s =
  after [EvResolve basePath] (cb None (Some (set_path spec p)) s)
        (inl (set_path spec p)).
Proof.
  intros Hpre Hext Hres Hcb. induction Hpre as [|x pre Hx _ IH].
  - cbn [app fast_path]. rewrite Hext.
    cbv [after bind try_ resolve emit ret outcome final events].
    rewrite Hres.
    destruct (cb None (Some (set_path spec p)) s) as [o f evs].
    cbn [outcome final events] in *. subst o.
    cbn [app]. by rewrite !app_nil_r.
  - cbn [app fast_path]. rewrite Hx, bind_unfold, IH.
    unfold after. rewrite Hcb. cbn [outcome final events ret].
    by rewrite app_nil_r.
Qed.

End LocatorFacts.

(** ** The registry *)

Lemma fast_tries_registry h root :
  fast_tries h root registry =
  if known_ext (extname h root) then [root] else [].
Proof.
  unfold fast_tries, known_ext, registry. rewrite !filter_cons, filter_nil.
  cbn [existsb ext].
  destruct (String.eqb (extname h root) ".node") eqn:E1;
    destruct (String.eqb (extname h root) ".js") eqn:E2;
    repeat case_decide; try done.
  apply String.eqb_eq in E1, E2. congruence.
Qed.

(** ** C1 *)

(** C1, counterexample: with both builds present under /proj the search
    returns build/Debug, so the Release build is not the one chosen. *)
Lemma release_preferred_fails :
  ~ release_preferred host_debug_and_release "/proj".
Proof.
  intros Hc.
  specialize (Hc node_spec "/proj/build/Debug/nbind.node"
                 "/proj/build/Release/nbind.node" (find_rethrow) empty_store).
  assert (Hin : node_spec ∈ registry) by constructor.
  specialize (Hc Hin eq_refl eq_refl eq_refl).
  vm_compute in Hc. discriminate Hc.
Qed.

(** C1, as amended: when the Debug and the Release build of one spec both
    resolve and nothing earlier in the search order does (the root itself
    in the first loop, the candidates of earlier specs, the spec's file
    directly under the root or under build), the search hands the
    build/Debug candidate to the callback and returns it: Debug comes
    before Release in the template order. *)
Theorem debug_before_release h root before spec later cb s pD pR :
  fast_tries h root (before ++ spec :: later) = [] \/ require_resolve h root = None ->
  Forall (fun c => require_resolve h c.2 = None) (candidates h root before) ->
  require_resolve h (path_resolve h [root; name spec]) = None ->
  require_resolve h (path_resolve h [root; "build"; name spec]) = None ->
  require_resolve h (path_resolve h [root; "build"; "Debug"; name spec]) = Some pD ->
  require_resolve h (path_resolve h [root; "build"; "Release"; name spec]) = Some pR ->
  findCompiledModule h root (before ++ spec :: later) cb s =
  after (map EvResolve
           (fast_tries h root (before ++ spec :: later) ++
            map snd (candidates h root before) ++
            [path_resolve h [root; name spec];
             path_resolve h [root; "build"; name spec];
             path_resolve h [root; "build"; "Debug"; name spec]]))
        (cb None (Some (set_path spec pD)) s)
        (Some (set_path spec pD)).
Proof.
  intros Hfast Hbefore H1 H2 HD _.
  rewrite (findCompiledModule_scan _ _ _ _ _ Hfast).
  assert (Hs : scan h (candidates h root (before ++ spec :: later)) =
               (map snd (candidates h root before) ++
                [path_resolve h [root; name spec];
                 path_resolve h [root; "build"; name spec];
                 path_resolve h [root; "build"; "Debug"; name spec]],
                Some (spec, pD))).
  { unfold candidates. rewrite flat_map_app, scan_app.
    fold (candidates h root before). rewrite (scan_all_fail _ _ Hbefore).
    cbn [flat_map makeModulePathList map app scan].
    by rewrite H1, H2, HD. }
  by rewrite Hs.
Qed.

(** The amended C1 on the fixture with both builds. *)
Lemma debug_before_release_witness :
  outcome (findCompiledModule host_debug_and_release "/proj" registry
             find_rethrow empty_store) =
  inr (Some (set_path node_spec "/proj/build/Debug/nbind.node")).
Proof.
  pose proof (debug_before_release host_debug_and_release "/proj" [] node_spec
                [emcc_spec] find_rethrow empty_store
                "/proj/build/Debug/nbind.node" "/proj/build/Release/nbind.node"
                (or_introl eq_refl) (List.Forall_nil _) eq_refl eq_refl eq_refl eq_refl)
    as Hd.
  change ([] ++ node_spec :: [emcc_spec]) with registry in Hd.
  rewrite Hd. reflexivity.
Defined.

(** ** C3 *)

(** C3: the directory search walks the specs in list order and, for each
    spec, the ten templates in the order: root, build, build/Debug,
    build/Release, out/Debug, Debug, out/Release, Release, build/default,
    and base/version/platform/arch, where the base is the value of
    [NODE_BINDINGS_COMPILED_DIR] if that is set and not empty, and
    "compiled" otherwise.  It probes the candidates before the first one
    that resolves and that one, nothing after it, and hands the callback
    the entry with [path] set to the resolved file name (its other fields
    as they were), which it then returns. *)
Theorem directory_search_order h root specList cb tried s :
  let base := match env_NODE_BINDINGS_COMPILED_DIR h with
              | Some d => if String.eqb d "" then "compiled" else d
              | None => "compiled"
              end in
  templates h =
    [ []; ["build"]; ["build"; "Debug"]; ["build"; "Release"];
      ["out"; "Debug"]; ["Debug"]; ["out"; "Release"]; ["Release"];
      ["build"; "default"];
      [base; versions_node h; platform h; arch h] ] /\
  (forall file,
      makeModulePathList h root file =
      map (fun t => root :: t ++ [file]) (templates h)) /\
  candidates h root specList =
    flat_map (fun spec =>
                map (fun t => (spec, path_resolve h (root :: t ++ [name spec])))
                    (templates h))
             specList /\
  (forall pre spec rp p post,
      candidates h root specList = pre ++ (spec, rp) :: post ->
      Forall (fun c => require_resolve h c.2 = None) pre ->
      require_resolve h rp = Some p ->
      let found := {| type := type spec; ext := ext spec; name := name spec;
                      path := Some p |} in
      dir_search h root specList cb tried s =
      after (map EvResolve (map snd pre ++ [rp]))
            (cb None (Some found) s)
            (inl found)).
Proof.
  intros base. split.
  { subst base. unfold templates, or_default.
    by destruct (env_NODE_BINDINGS_COMPILED_DIR h). }
  split; [reflexivity|]. split; [reflexivity|].
  intros pre spec rp p post Hc Hpre Hp found.
  by rewrite dir_search_scan, Hc, (scan_first_hit _ _ _ _ _ _ Hpre Hp).
Qed.

(** C3 on two fixtures.  With a Release build only, three probes fail and
    the fourth is build/Release.  With [NODE_BINDINGS_COMPILED_DIR] set to
    "prebuilt" and the only build below it, nine probes fail and the tenth
    is prebuilt/6.2.0/linux/x64.  Either way the entry returned has [path]
    set to the file found. *)
Lemma directory_search_order_witness :
  dir_search host_release_only "/proj" registry find_rethrow [] empty_store =
    mkRes (inr (inl (mkSpec node ".node" "nbind.node"
                            (Some "/proj/build/Release/nbind.node"))))
          empty_store
          [EvResolve "/proj/nbind.node"; EvResolve "/proj/build/nbind.node";
           EvResolve "/proj/build/Debug/nbind.node";
           EvResolve "/proj/build/Release/nbind.node"] /\
  dir_search host_prebuilt "/proj" registry find_rethrow [] empty_store =
    mkRes (inr (inl (mkSpec node ".node" "nbind.node"
                            (Some "/proj/prebuilt/6.2.0/linux/x64/nbind.node"))))
          empty_store
          [EvResolve "/proj/nbind.node"; EvResolve "/proj/build/nbind.node";
           EvResolve "/proj/build/Debug/nbind.node";
           EvResolve "/proj/build/Release/nbind.node";
           EvResolve "/proj/out/Debug/nbind.node";
           EvResolve "/proj/Debug/nbind.node";
           EvResolve "/proj/out/Release/nbind.node";
           EvResolve "/proj/Release/nbind.node";
           EvResolve "/proj/build/default/nbind.node";
           EvResolve "/proj/prebuilt/6.2.0/linux/x64/nbind.node"].
Proof.
  split.
  - pose proof (directory_search_order host_release_only "/proj" registry
                  find_rethrow [] empty_store) as (_ & _ & _ & Hhit).
    rewrite (Hhit (take 3 (candidates host_release_only "/proj" registry))
                  node_spec "/proj/build/Release/nbind.node"
                  "/proj/build/Release/nbind.node"
                  (drop 4 (candidates host_release_only "/proj" registry))
                  eq_refl);
      [reflexivity | repeat constructor | reflexivity].
  - pose proof (directory_search_order host_prebuilt "/proj" registry
                  find_rethrow [] empty_store) as (_ & _ & _ & Hhit).
    rewrite (Hhit (take 9 (candidates host_prebuilt "/proj" registry))
                  node_spec prebuilt_addon prebuilt_addon
                  (drop 10 (candidates host_prebuilt "/proj" registry))
                  eq_refl);
      [reflexivity | repeat constructor | reflexivity].
Defined.

(** ** C4 *)

(** C4: when nothing resolves (neither a candidate of the directory
    search nor, if its extension is a registry extension, the root
    itself), [find] calls the callback once, with one error and no
    result.  The attempted paths are the root (only if its extension is a
    registry extension) followed by the 20 candidates in search order;
    the error carries that list as [tries] and, joined by line feeds, in
    its message. *)
Theorem exhausted_search_error h basePath cb s :
  let root := root_of h basePath in
  let attempted :=
    (if known_ext (extname h root) then [root] else []) ++
    map snd (candidates h root registry) in
  (known_ext (extname h root) = true -> require_resolve h root = None) ->
  Forall (fun c => require_resolve h c.2 = None) (candidates h root registry) ->
  find h basePath cb s =
    after (map EvResolve attempted) (cb (Some (locate_error attempted)) None s) None /\
  length (map snd (candidates h root registry)) = 20 /\
  tries (locate_error attempted) = Some attempted /\
  message (locate_error attempted) =
    "Could not locate the bindings file. Tried:" +:+ LF +:+
    String.concat LF attempted.
Proof.
  intros root attempted Hroot Hall. repeat split.
  unfold find. fold root.
  rewrite findCompiledModule_scan.
  - rewrite (scan_all_fail _ _ Hall), fast_tries_registry. reflexivity.
  - rewrite fast_tries_registry.
    destruct (known_ext (extname h root)); [right; by apply Hroot | by left].
Qed.

(** C4 on the empty fixture, for a root with the extension of the bundle:
    21 attempts, the first of them the root. *)
Lemma exhausted_search_error_witness :
  exists attempted,
    outcome (find host_nothing (Some "/nowhere.js") find_rethrow empty_store) =
      inl (locate_error attempted) /\
    length attempted = 21 /\
    head attempted = Some "/nowhere.js".
Proof.
  destruct (exhausted_search_error host_nothing (Some "/nowhere.js")
              find_rethrow empty_store) as (Hf & _ & _ & _).
  - reflexivity.
  - repeat constructor.
  - eexists. rewrite Hf. repeat split.
Defined.

(** ** The first loop (C5) *)

(** What C5 describes, for a callback that returns.  When the extension of
    the root is that of a registry entry, the root itself is resolved
    first, as a literal path.  If it resolves, the first spec with that
    extension gets [path] set to the resolution, is handed to the callback
    and returned, and no candidate of the directory search is probed.  If
    it does not resolve, the root heads the attempted paths and the whole
    directory search follows. *)
Theorem literal_root_first h root spec cb s :
  spec ∈ registry ->
  ext spec = extname h root ->
  (forall p,
      require_resolve h root = Some p ->
      outcome (cb None (Some (set_path spec p)) s) = inr tt ->
      findCompiledModule h root registry cb s =
      after [EvResolve root] (cb None (Some (set_path spec p)) s)
            (Some (set_path spec p))) /\
  (require_resolve h root = None ->
   findCompiledModule h root registry cb s =
   match scan h (candidates h root registry) with
   | (probed, None) =>
       after (map EvResolve (root :: probed))
             (cb (Some (locate_error (root :: probed))) None s) None
   | (probed, Some (spec', p)) =>
       after (map EvResolve (root :: probed))
             (cb None (Some (set_path spec' p)) s) (Some (set_path spec' p))
   end).
Proof.
  intros Hin Hext. split.
  - intros p Hres Hcb.
    assert (Hsplit : exists pre post,
               registry = pre ++ spec :: post /\
               Forall (fun x => String.eqb (extname h root) (ext x) = false) pre).
    { unfold registry in *.
      apply elem_of_cons in Hin as [->|Hin].
      - by exists [], [mkSpec emcc ".js" "nbind.js" None].
      - apply elem_of_cons in Hin as [->|Hin]; [|by apply elem_of_nil in Hin].
        exists [mkSpec node ".node" "nbind.node" None], []. split; [done|].
        constructor; [|constructor]. by rewrite <- Hext. }
    destruct Hsplit as (pre & post & Hreg & Hpre).
    unfold findCompiledModule. rewrite bind_unfold, Hreg.
    rewrite (fast_path_hit h root pre spec post cb [] p s Hpre); [|by rewrite Hext, String.eqb_refl|done|done].
    unfold after. rewrite Hcb. cbn [outcome final events ret].
    by rewrite app_nil_r.
  - intros Hres.
    rewrite findCompiledModule_scan by (by right).
    rewrite fast_tries_registry.
    assert (Hk : known_ext (extname h root) = true).
    { unfold known_ext. apply existsb_exists. exists spec. split.
      - by apply list_elem_of_In.
      - by rewrite Hext, String.eqb_refl. }
    rewrite Hk. reflexivity.
Qed.

(** On the fixture whose root is the addon file: one probe, of the root,
    and the addon spec is returned. *)
Lemma literal_root_first_witness :
  findCompiledModule host_literal "/proj/addon.node" registry find_rethrow
                     empty_store =
  mkRes (inr (Some (set_path node_spec "/proj/addon.node"))) empty_store
        [EvResolve "/proj/addon.node"].
Proof.
  assert (Hin : node_spec ∈ registry) by constructor.
  destruct (literal_root_first host_literal "/proj/addon.node" node_spec
              find_rethrow empty_store Hin eq_refl) as [Hhit _].
  rewrite (Hhit "/proj/addon.node" eq_refl eq_refl). reflexivity.
Defined.

(** C5, at the failing input: [init] on a root that is the addon file,
    which resolves but whose load raises.  The exception is raised under
    the callback that the first loop calls inside its [try]; it is caught
    there as if the root had not resolved.  The directory search is then
    run below the root, and the only report is the locator's error, which
    lists the root as a failed attempt; the loader's error is lost. *)
Theorem literal_root_failure_masked :
  let r := init host_mismatch (Some "/proj/nbind.node") None (Some 0) empty_store in
  require_resolve host_mismatch "/proj/nbind.node" = Some "/proj/nbind.node" /\
  take 3 (events r) =
    [EvResolve "/proj/nbind.node"; EvRequire "/proj/nbind.node";
     EvResolve "/proj/nbind.node/nbind.node"] /\
  reported_errors (events r) =
    [Some (locate_error
             ("/proj/nbind.node" ::
              map snd (candidates host_mismatch "/proj/nbind.node" registry)))].
Proof. repeat split. Qed.

(** ** The initializer: stores and steps *)

Lemma obj_of_write_prop s l key v l' :
  obj_of (write_prop l key v s) l' =
  if decide (l' = l) then <[key := v]> (obj_of s l) else obj_of s l'.
Proof.
  unfold obj_of, write_prop; cbn [objects].
  case_decide as Hl; [subst; by rewrite lookup_insert_eq | by rewrite lookup_insert_ne].
Qed.

Lemma obj_of_remove_prop s l key l' :
  obj_of (remove_prop l key s) l' =
  if decide (l' = l) then delete key (obj_of s l) else obj_of s l'.
Proof.
  unfold obj_of, remove_prop; cbn [objects].
  case_decide as Hl; [subst; by rewrite lookup_insert_eq | by rewrite lookup_insert_ne].
Qed.

Lemma call_callback_unfold h cb err result s :
  call_callback h cb err result s =
  mkRes (callback_result h cb err result s) s [EvCallback cb err result s].
Proof.
  unfold call_callback, callback_result.
  cbv [bind get_store emit outcome final events].
  destruct cb as [|id]; [destruct err | destruct (cb_outcome h id err result s)];
    reflexivity.
Qed.

Lemma init_found_located h b preset cb found s :
  init_found h b preset cb None (Some found) s =
  match type found with
  | emcc => initAsm h b cb (prepared b found preset s)
  | node => initNode h b cb (prepared b found preset s)
  end.
Proof.
  assert (Hprep : forall l,
    l = exports_loc preset s ->
    mkStore (match preset with
             | Some _ => objects s
             | None => <[l := ∅]> (objects s)
             end)
            (<[b := mkBinding
                      ((<[b := mkBinding (Some found) ((bindings s !! b) ≫= lib)]>
                          (bindings s) !! b) ≫= binary)
                      (Some l)]>
               (<[b := mkBinding (Some found) ((bindings s !! b) ≫= lib)]>
                  (bindings s)))
            (currentBinding s) = prepared b found preset s).
  { intros l ->. unfold prepared.
    by rewrite lookup_insert_eq, insert_insert_eq. }
  unfold init_found.
  destruct (type found); destruct preset as [l|];
    cbv [bind set_binary set_lib modify ret new_object];
    cbn [outcome final events objects bindings currentBinding app];
    first [ rewrite (Hprep l eq_refl)
          | rewrite (Hprep (fresh (dom (objects s))) eq_refl) ];
    match goal with |- mkRes (outcome ?r) _ _ = _ => by destruct r end.
Qed.

Lemma copy_props_bindings src dst keys s :
  bindings (copy_props src dst keys s) = bindings s /\
  currentBinding (copy_props src dst keys s) = currentBinding s.
Proof.
  revert s. induction keys as [|k keys IH]; intros s; [done|].
  cbn [copy_props]. destruct (IH (write_prop dst k (default VUndefined (obj_of s src !! k)) s))
    as [-> ->]. done.
Qed.

Lemma copy_keys_run b src dst x keys s :
  bindings s !! b = Some x ->
  lib x = Some dst ->
  copy_keys b src keys s = mkRes (inr tt) (copy_props src dst keys s) [].
Proof.
  intros Hb Hl. revert s Hb. induction keys as [|k keys IH]; intros s Hb; [done|].
  cbn [copy_keys copy_props].
  assert (Hstep : binding_lib b s = mkRes (inr dst) s []).
  { unfold binding_lib, read_binding, bind. rewrite Hb. cbn. rewrite Hl. done. }
  rewrite bind_unfold, Hstep. cbn [outcome final events].
  rewrite bind_unfold. cbn [get_prop outcome final events].
  rewrite bind_unfold. cbn [set_prop modify outcome final events].
  rewrite IH by done. reflexivity.
Qed.

Lemma copy_props_other src dst keys s l :
  l <> dst -> objects (copy_props src dst keys s) !! l = objects s !! l.
Proof.
  intros Hl. revert s. induction keys as [|k keys IH]; intros s; [done|].
  cbn [copy_props]. rewrite IH. unfold write_prop; cbn [objects].
  by rewrite lookup_insert_ne.
Qed.

Lemma copy_props_distinct src dst keys s k :
  src <> dst ->
  obj_of (copy_props src dst keys s) dst !! k =
  if decide (k ∈ keys) then Some (default VUndefined (obj_of s src !! k))
  else obj_of s dst !! k.
Proof.
  intros Hne. revert s. induction keys as [|k0 keys IH]; intros s.
  - cbn [copy_props]. case_decide as Hk; [by apply elem_of_nil in Hk | done].
  - cbn [copy_props]. rewrite IH, !obj_of_write_prop.
    rewrite (decide_False (P := src = dst)) by done.
    rewrite (decide_True (P := dst = dst)) by done.
    destruct (decide (k ∈ keys)) as [Hin|Hnin].
    + rewrite (decide_True (P := k ∈ k0 :: keys)) by (by right). done.
    + destruct (decide (k = k0)) as [->|Hk].
      * rewrite (decide_True (P := k0 ∈ k0 :: keys)) by (by left).
        by rewrite lookup_insert_eq.
      * rewrite (decide_False (P := k ∈ k0 :: keys))
          by (by intros [?|?]%elem_of_cons).
        by rewrite lookup_insert_ne.
Qed.

Lemma write_prop_same s l k v :
  obj_of s l !! k = Some v -> write_prop l k v s = s.
Proof.
  unfold write_prop, obj_of. intros Hk.
  destruct (objects s !! l) as [m|] eqn:Hm; cbn [default] in *.
  - rewrite (insert_id m k v Hk), (insert_id _ l m Hm). by destruct s.
  - by rewrite lookup_empty in Hk.
Qed.

Lemma copy_props_self l keys s :
  Forall (fun k => is_Some (obj_of s l !! k)) keys ->
  copy_props l l keys s = s.
Proof.
  induction 1 as [|k keys [v Hk] _ IH]; [done|].
  cbn [copy_props]. rewrite Hk. cbn [default from_option id].
  rewrite (write_prop_same _ _ _ _ Hk). apply IH.
Qed.

Lemma elem_of_keys_of s l k : k ∈ keys_of s l <-> is_Some (obj_of s l !! k).
Proof.
  unfold keys_of. rewrite list_elem_of_fmap. split.
  - intros ([k' v] & -> & Hin). apply elem_of_map_to_list in Hin. by exists v.
  - intros [v Hv]. exists (k, v). split; [done|]. by apply elem_of_map_to_list.
Qed.

(** The copy of [initNode] merges the loaded object into the exports
    object, the loaded value winning on a common key; this holds whether
    or not the two are the same object. *)
Lemma copy_all_exports src dst s :
  obj_of (copy_props src dst (keys_of s src) s) dst = obj_of s src ∪ obj_of s dst.
Proof.
  apply map_eq; intros k. rewrite lookup_union.
  destruct (decide (src = dst)) as [->|Hne].
  - rewrite copy_props_self.
    + by destruct (obj_of s dst !! k).
    + apply Forall_forall. intros k' Hk'. by apply elem_of_keys_of.
  - rewrite copy_props_distinct by done.
    destruct (decide (k ∈ keys_of s src)) as [Hin|Hnin].
    + apply elem_of_keys_of in Hin as [v Hv]. rewrite Hv. cbn.
      by destruct (obj_of s dst !! k).
    + destruct (obj_of s src !! k) as [v|] eqn:Hv.
      * exfalso. apply Hnin, elem_of_keys_of. by exists v.
      * by destruct (obj_of s dst !! k).
Qed.

Lemma copy_all_others src dst s l :
  l <> dst -> objects (copy_props src dst (keys_of s src) s) !! l = objects s !! l.
Proof. apply copy_props_other. Qed.

(** The loaded object itself is left as it was. *)
Lemma copy_all_source src dst s :
  obj_of (copy_props src dst (keys_of s src) s) src = obj_of s src.
Proof.
  destruct (decide (src = dst)) as [->|Hne].
  - rewrite copy_props_self; [done|].
    apply Forall_forall. intros k' Hk'. by apply elem_of_keys_of.
  - unfold obj_of at 1. by rewrite copy_props_other.
Qed.

(** ** The native-addon branch *)

Lemma require_binary_plain h b x p v s :
  bindings s !! b = Some x ->
  binary x ≫= path = Some p ->
  require_load h p = LoadValue [] v ->
  require_binary h b s = mkRes (inr v) s [EvRequire p].
Proof.
  intros Hb Hp Hl. unfold require_binary, read_binding, bind. rewrite Hb.
  cbn [outcome final events]. rewrite Hp. unfold require, bind, emit.
  cbn [outcome final events]. rewrite Hl. reflexivity.
Qed.

Lemma require_binary_raises h b x p e s :
  bindings s !! b = Some x ->
  binary x ≫= path = Some p ->
  require_load h p = LoadRaises e ->
  require_binary h b s = mkRes (inl e) s [EvRequire p].
Proof.
  intros Hb Hp Hl. unfold require_binary, read_binding, bind. rewrite Hb.
  cbn [outcome final events]. rewrite Hp. unfold require, bind, emit.
  cbn [outcome final events]. rewrite Hl. reflexivity.
Qed.

(** The test of [initNode], [!lib || typeof(lib) != 'object'], passes
    exactly the object references. *)
Lemma addon_test_object v :
  negb (truthy v) || negb (String.eqb (typeof v) "object") = false <->
  exists src, v = VObj src.
Proof.
  split.
  - destruct v; cbn; try discriminate; try (destruct b; discriminate);
      try (destruct (n =? 0)%Z; discriminate);
      try (destruct (String.eqb s ""); discriminate); eauto.
  - by intros [src ->].
Qed.

Lemma initNode_object h b x p src dst cb s :
  bindings s !! b = Some x ->
  binary x ≫= path = Some p ->
  lib x = Some dst ->
  require_load h p = LoadValue [] (VObj src) ->
  let s' := copy_props src dst (keys_of s src) s in
  initNode h b cb s =
  mkRes (callback_result h cb None (Some b) s') s'
        [EvRequire p; EvCallback cb None (Some b) s'].
Proof.
  intros Hb Hp Hd Hl s'. unfold initNode.
  rewrite bind_unfold, (require_binary_plain _ _ _ _ _ _ Hb Hp Hl).
  cbn [outcome final events].
  change (negb (truthy (VObj src)) || negb (String.eqb (typeof (VObj src)) "object"))
    with false.
  cbv iota. rewrite bind_unfold. cbn [object_keys outcome final events].
  rewrite bind_unfold. fold (keys_of s src).
  rewrite (copy_keys_run _ _ _ _ _ _ Hb Hd). fold s'.
  cbn [outcome final events]. by rewrite call_callback_unfold.
Qed.

Lemma initNode_rejected h b x p v cb s :
  bindings s !! b = Some x ->
  binary x ≫= path = Some p ->
  require_load h p = LoadValue [] v ->
  negb (truthy v) || negb (String.eqb (typeof v) "object") = true ->
  initNode h b cb s =
  mkRes (callback_result h cb (Some load_error) None s) s
        [EvRequire p; EvCallback cb (Some load_error) None s].
Proof.
  intros Hb Hp Hl Hv. unfold initNode.
  rewrite bind_unfold, (require_binary_plain _ _ _ _ _ _ Hb Hp Hl).
  cbn [outcome final events]. rewrite Hv.
  by rewrite call_callback_unfold.
Qed.

Lemma initNode_load_raises h b x p e cb s :
  bindings s !! b = Some x ->
  binary x ≫= path = Some p ->
  require_load h p = LoadRaises e ->
  initNode h b cb s = mkRes (inl e) s [EvRequire p].
Proof.
  intros Hb Hp Hl. unfold initNode.
  by rewrite bind_unfold, (require_binary_raises _ _ _ _ _ _ Hb Hp Hl).
Qed.

(** ** [init] as a whole *)

Lemma init_unfold h basePath preset cb s :
  init h basePath preset cb s =
  after [] (find h basePath
              (init_found h (new_loc s) preset (to_callback cb))
              (with_binding s))
        (new_loc s).
Proof.
  unfold init, after. rewrite bind_unfold.
  cbn [new_binding outcome final events]. fold (new_loc s). fold (with_binding s).
  rewrite bind_unfold.
  destruct (find h basePath _ (with_binding s)) as [[e|o] f evs];
    cbn [outcome final events ret app]; by rewrite ?app_nil_r.
Qed.

Lemma locates_by_search h basePath probed spec p :
  fast_tries h (root_of h basePath) registry = [] \/
    require_resolve h (root_of h basePath) = None ->
  scan h (candidates h (root_of h basePath) registry) = (probed, Some (spec, p)) ->
  locates h basePath (set_path spec p).
Proof.
  intros Hfast Hscan.
  exists (fast_tries h (root_of h basePath) registry ++ probed).
  intros cb s _. unfold find.
  by rewrite (findCompiledModule_scan _ _ _ _ _ Hfast), Hscan.
Qed.

Lemma locates_literal h basePath spec p :
  spec ∈ registry ->
  ext spec = extname h (root_of h basePath) ->
  require_resolve h (root_of h basePath) = Some p ->
  locates h basePath (set_path spec p).
Proof.
  intros Hin Hext Hres. exists [root_of h basePath]. intros cb s Hcb.
  unfold find.
  assert (Hsplit : exists pre post,
             registry = pre ++ spec :: post /\
             Forall (fun x => String.eqb (extname h (root_of h basePath)) (ext x) = false) pre).
  { unfold registry in *.
    apply elem_of_cons in Hin as [->|Hin].
    - by exists [], [mkSpec emcc ".js" "nbind.js" None].
    - apply elem_of_cons in Hin as [->|Hin]; [|by apply elem_of_nil in Hin].
      exists [mkSpec node ".node" "nbind.node" None], []. split; [done|].
      constructor; [|constructor]. by rewrite <- Hext. }
  destruct Hsplit as (pre & post & Hreg & Hpre).
  unfold findCompiledModule. rewrite bind_unfold, Hreg.
  rewrite (fast_path_hit h _ pre spec post cb [] p s Hpre);
    [|by rewrite Hext, String.eqb_refl|done|done].
  unfold after. rewrite Hcb. cbn [outcome final events ret map].
  by rewrite app_nil_r.
Qed.

Lemma exhausts_by_search h basePath :
  let root := root_of h basePath in
  (known_ext (extname h root) = true -> require_resolve h root = None) ->
  Forall (fun c => require_resolve h c.2 = None) (candidates h root registry) ->
  exhausts h basePath
    ((if known_ext (extname h root) then [root] else []) ++
     map snd (candidates h root registry)).
Proof.
  intros root Hroot Hall cb s. unfold find. fold root.
  rewrite findCompiledModule_scan.
  - rewrite (scan_all_fail _ _ Hall), fast_tries_registry. reflexivity.
  - rewrite fast_tries_registry.
    destruct (known_ext (extname h root)); [right; by apply Hroot | by left].
Qed.

(** ** The asm.js branch *)

Lemma bind_get_prop {A} l key (k : value -> M A) s :
  bind (get_prop l key) k s = k (prop s l key) s.
Proof. rewrite bind_unfold. cbn [get_prop outcome final events app]. apply res_eta. Qed.

Lemma bind_set_prop {A} l key v (k : unit -> M A) s :
  bind (set_prop l key v) k s = k tt (write_prop l key v s).
Proof.
  rewrite bind_unfold. cbn [set_prop modify outcome final events app]. apply res_eta.
Qed.

Lemma initAsm_unfold h b x l cb s :
  bindings s !! b = Some x ->
  lib x = Some l ->
  initAsm h b cb s = after [] (require_binary h b (asm_installed b l cb s)) tt.
Proof.
  intros Hb Hl. unfold initAsm.
  assert (Hstep : binding_lib b s = mkRes (inr l) s []).
  { unfold binding_lib, read_binding, bind. rewrite Hb. cbn. by rewrite Hl. }
  rewrite bind_unfold, Hstep. cbn [outcome final events app].
  match goal with |- mkRes (outcome ?r) (final ?r) (events ?r) = _ =>
    rewrite (res_eta r) end.
  rewrite bind_get_prop, bind_set_prop, bind_get_prop, bind_set_prop.
  rewrite bind_unfold. cbn [set_currentBinding modify outcome final events app].
  unfold after. rewrite bind_unfold.
  match goal with |- context [require_binary h b ?s1] =>
    change s1 with (asm_installed b l cb s) end.
  destruct (require_binary h b (asm_installed b l cb s)) as [[e|v] f evs];
    cbn [outcome final events ret app]; by rewrite ?app_nil_r.
Qed.

Lemma asm_installed_lookup b l cb s key :
  obj_of (asm_installed b l cb s) l !! key =
  if decide (key = "onRuntimeInitialized")
  then Some (ready_hook (prop s l "onRuntimeInitialized") l b cb)
  else if decide (key = "locateFile")
  then Some (if truthy (prop s l "locateFile") then prop s l "locateFile"
             else VFun (FLocateFile b))
  else obj_of s l !! key.
Proof.
  unfold asm_installed, obj_of at 1. cbn [objects].
  fold (obj_of (write_prop l "onRuntimeInitialized"
     (ready_hook (prop (write_prop l "locateFile"
        (if truthy (prop s l "locateFile") then prop s l "locateFile"
         else VFun (FLocateFile b)) s) l "onRuntimeInitialized") l b cb)
     (write_prop l "locateFile"
        (if truthy (prop s l "locateFile") then prop s l "locateFile"
         else VFun (FLocateFile b)) s)) l).
  rewrite !obj_of_write_prop. rewrite !(decide_True (P := l = l)) by done.
  unfold prop at 1. rewrite obj_of_write_prop, (decide_True (P := l = l)) by done.
  rewrite (lookup_insert_ne _ "locateFile" "onRuntimeInitialized") by done.
  fold (prop s l "onRuntimeInitialized").
  repeat case_decide; subst; try done.
  - by rewrite lookup_insert_eq.
  - rewrite lookup_insert_ne by done. by rewrite lookup_insert_eq.
  - by rewrite !lookup_insert_ne.
Qed.

Lemma asm_installed_others b l cb s l' :
  l' <> l -> objects (asm_installed b l cb s) !! l' = objects s !! l'.
Proof.
  intros Hl. unfold asm_installed, write_prop. cbn [objects].
  by rewrite !lookup_insert_ne.
Qed.

(** What a call of the runtime-ready closure does: the previous hook, if
    any; then the bootstrap call under [try]; then one call of the
    callback, with the exception or with the binding. *)
Lemma call_ready_hook h n orig l b cb args s :
  call_value h (S n) (ready_hook orig l b cb) args s =
  let rh := (if truthy orig then call_value h n orig args else ret VUndefined) s in
  match outcome rh with
  | inl e => mkRes (inl e) (final rh) (events rh)
  | inr _ =>
      let rb := call_value h n (prop (final rh) l "ccall") [VStr "nbind_init"]
                           (final rh) in
      let err := match outcome rb with inl e => Some e | inr _ => None end in
      let res := match outcome rb with inl _ => None | inr _ => Some b end in
      mkRes (match callback_result h cb err res (final rb) with
             | inl e => inl e
             | inr _ => inr VUndefined
             end)
            (final rb)
            (events rh ++ events rb ++ [EvCallback cb err res (final rb)])
  end.
Proof.
  unfold ready_hook. cbn [call_value]. rewrite bind_unfold.
  destruct ((if truthy orig then call_value h n orig args else ret VUndefined) s)
    as [[e|v] s1 evh]; cbn [outcome final events]; [done|].
  assert (Htry :
    try_ (ccall <- get_prop l "ccall";; call_value h n ccall [VStr "nbind_init"]) s1 =
    mkRes (inr (outcome (call_value h n (prop s1 l "ccall") [VStr "nbind_init"] s1)))
          (final (call_value h n (prop s1 l "ccall") [VStr "nbind_init"] s1))
          (events (call_value h n (prop s1 l "ccall") [VStr "nbind_init"] s1))).
  { unfold try_. by rewrite bind_get_prop. }
  rewrite bind_unfold, Htry. cbn [outcome final events].
  destruct (call_value h n (prop s1 l "ccall") [VStr "nbind_init"] s1)
    as [[e|v'] s2 evb]; cbn [outcome final events];
    rewrite bind_unfold, call_callback_unfold; cbn [outcome final events];
    destruct (callback_result h cb _ _ s2); cbn [outcome final events ret];
    by rewrite ?app_nil_r.
Qed.

Lemma runtime_ready_fires h b x l orig cb s :
  currentBinding s = Some b ->
  bindings s !! b = Some x ->
  lib x = Some l ->
  prop s l "onRuntimeInitialized" = ready_hook orig l b cb ->
  runtime_ready h s =
  after [] (call_value h (S (max_nesting h)) (ready_hook orig l b cb) [] s) tt.
Proof.
  intros Hc Hb Hl Hp. unfold runtime_ready.
  assert (Hg : getLib s = mkRes (inr (Some l)) s []).
  { unfold getLib, bind, get_store, read_binding. cbn [outcome final events].
    rewrite Hc. rewrite Hb. cbn [outcome final events ret app]. by rewrite Hl. }
  rewrite bind_unfold, Hg. cbn [outcome final events app].
  match goal with |- mkRes (outcome ?r) (final ?r) (events ?r) = _ =>
    rewrite (res_eta r) end.
  rewrite bind_get_prop, Hp. cbn [ready_hook truthy].
  unfold after. rewrite bind_unfold.
  destruct (call_value h (S (max_nesting h)) _ [] s) as [[e|v] f evs];
    cbn [outcome final events ret app]; by rewrite ?app_nil_r.
Qed.

(** ** The paths through [init] *)

Lemma prepared_binding b found preset s :
  bindings (prepared b found preset s) !! b =
  Some (mkBinding (Some found) (Some (exports_loc preset s))).
Proof. unfold prepared; cbn [bindings]. by rewrite lookup_insert_eq. Qed.

Lemma obj_of_prepared b found preset s l :
  obj_of (prepared b found preset s) l = obj_of s l.
Proof.
  unfold prepared, obj_of. cbn [objects]. destruct preset as [l0|]; [done|].
  cbn [exports_loc].
  destruct (decide (l = fresh (dom (objects s)))) as [->|Hne].
  - rewrite lookup_insert_eq.
    assert (Hf : objects s !! fresh (dom (objects s)) = None).
    { apply not_elem_of_dom, is_fresh. }
    by rewrite Hf.
  - by rewrite lookup_insert_ne.
Qed.

Lemma prepared_fresh_exports (s : Store) (l : loc) :
  is_Some (objects s !! l) -> exports_loc None s <> l.
Proof.
  intros Hl Heq. cbn [exports_loc] in Heq. subst l.
  apply elem_of_dom in Hl. by apply is_fresh in Hl.
Qed.

Lemma native_ready_binding found preset src s :
  bindings (native_ready found preset src s) !! new_loc s =
  Some (mkBinding (Some found) (Some (exports_loc preset s))).
Proof.
  unfold native_ready.
  destruct (copy_props_bindings src (exports_loc preset s)
              (keys_of (prepared (new_loc s) found preset (with_binding s)) src)
              (prepared (new_loc s) found preset (with_binding s))) as [-> _].
  apply (prepared_binding (new_loc s) found preset (with_binding s)).
Qed.

Lemma native_ready_exports found preset src s :
  obj_of (native_ready found preset src s) (exports_loc preset s) =
  obj_of s src ∪ obj_of s (exports_loc preset s).
Proof.
  unfold native_ready.
  change (exports_loc preset s) with (exports_loc preset (with_binding s)).
  by rewrite copy_all_exports, !obj_of_prepared.
Qed.

Lemma native_ready_source found preset src s :
  obj_of (native_ready found preset src s) src = obj_of s src.
Proof.
  unfold native_ready. by rewrite copy_all_source, obj_of_prepared.
Qed.

Lemma native_ready_others found preset src s l :
  l <> exports_loc preset s ->
  obj_of (native_ready found preset src s) l = obj_of s l.
Proof.
  intros Hl. unfold native_ready, obj_of at 1.
  rewrite copy_all_others by done.
  apply (obj_of_prepared (new_loc s) found preset (with_binding s) l).
Qed.

Lemma init_native_success h basePath preset cb s found p src :
  locates h basePath found ->
  type found = node ->
  path found = Some p ->
  require_load h p = LoadValue [] (VObj src) ->
  callback_result h (to_callback cb) None (Some (new_loc s))
                  (native_ready found preset src s) = inr tt ->
  exists probes,
    init h basePath preset cb s =
    mkRes (inr (new_loc s)) (native_ready found preset src s)
          (map EvResolve probes ++
           [EvRequire p;
            EvCallback (to_callback cb) None (Some (new_loc s))
                       (native_ready found preset src s)]).
Proof.
  intros [probes Hloc] Hty Hpath Hload Hcb. exists probes.
  rewrite init_unfold.
  assert (Hfound :
    init_found h (new_loc s) preset (to_callback cb) None (Some found) (with_binding s) =
    mkRes (inr tt) (native_ready found preset src s)
          [EvRequire p;
           EvCallback (to_callback cb) None (Some (new_loc s))
                      (native_ready found preset src s)]).
  { rewrite init_found_located, Hty.
    rewrite (initNode_object h _ _ p src (exports_loc preset s) _ _
               (prepared_binding _ _ _ _)); [|by cbn; rewrite Hpath|done|done].
    cbn zeta. fold (native_ready found preset src s). by rewrite Hcb. }
  rewrite Hloc by (by rewrite Hfound). rewrite Hfound.
  unfold after; cbn [outcome final events app]. reflexivity.
Qed.

Lemma init_native_rejected h basePath preset cb s found p v :
  locates h basePath found ->
  type found = node ->
  path found = Some p ->
  require_load h p = LoadValue [] v ->
  negb (truthy v) || negb (String.eqb (typeof v) "object") = true ->
  let s4 := prepared (new_loc s) found preset (with_binding s) in
  callback_result h (to_callback cb) (Some load_error) None s4 = inr tt ->
  exists probes,
    init h basePath preset cb s =
    mkRes (inr (new_loc s)) s4
          (map EvResolve probes ++
           [EvRequire p; EvCallback (to_callback cb) (Some load_error) None s4]).
Proof.
  intros [probes Hloc] Hty Hpath Hload Hv s4 Hcb. exists probes.
  rewrite init_unfold.
  assert (Hfound :
    init_found h (new_loc s) preset (to_callback cb) None (Some found) (with_binding s) =
    mkRes (inr tt) s4
          [EvRequire p; EvCallback (to_callback cb) (Some load_error) None s4]).
  { rewrite init_found_located, Hty.
    rewrite (initNode_rejected h _ _ p v _ _ (prepared_binding _ _ _ _));
      [|by cbn; rewrite Hpath|done|done].
    fold s4. by rewrite Hcb. }
  rewrite Hloc by (by rewrite Hfound). rewrite Hfound.
  unfold after; cbn [outcome final events app]. reflexivity.
Qed.

Lemma init_exhausted h basePath preset cb s attempted :
  exhausts h basePath attempted ->
  init h basePath preset cb s =
  mkRes (match callback_result h (to_callback cb)
                 (Some (locate_error attempted)) None (with_binding s) with
         | inl e => inl e
         | inr _ => inr (new_loc s)
         end)
        (with_binding s)
        (map EvResolve attempted ++
         [EvCallback (to_callback cb) (Some (locate_error attempted)) None
                     (with_binding s)]).
Proof.
  intros Hex. rewrite init_unfold, Hex. cbn [init_found].
  rewrite call_callback_unfold. unfold after; cbn [outcome final events app].
  by destruct (callback_result _ _ _ _ _).
Qed.

Lemma init_asm_loading h basePath preset cb s found p v :
  locates h basePath found ->
  type found = emcc ->
  path found = Some p ->
  require_load h p = LoadValue [] v ->
  exists probes,
    init h basePath preset cb s =
    mkRes (inr (new_loc s)) (asm_loading found preset cb s)
          (map EvResolve probes ++ [EvRequire p]).
Proof.
  intros [probes Hloc] Hty Hpath Hload. exists probes.
  rewrite init_unfold.
  assert (Hfound :
    init_found h (new_loc s) preset (to_callback cb) None (Some found) (with_binding s) =
    mkRes (inr tt) (asm_loading found preset cb s) [EvRequire p]).
  { rewrite init_found_located, Hty.
    rewrite (initAsm_unfold h _ _ (exports_loc preset s) _ _
               (prepared_binding _ _ _ _)) by done.
    rewrite (require_binary_plain h (new_loc s)
               (mkBinding (Some found) (Some (exports_loc preset s))) p v);
      [done | apply (prepared_binding (new_loc s) found preset (with_binding s))
      | by cbn; rewrite Hpath | done]. }
  rewrite Hloc by (by rewrite Hfound). rewrite Hfound.
  unfold after; cbn [outcome final events app]. reflexivity.
Qed.

(** ** Reports *)

Lemma quiet_returns_on_success h cb : quiet h cb -> returns_on_success h cb.
Proof. intros Hq b s. apply Hq. Defined.

Lemma rethrow_returns_on_success h : returns_on_success h None.
Proof. intros b s. reflexivity. Defined.

Lemma filter_report_resolve probes :
  filter (fun e => is_report e = true) (map EvResolve probes) = [].
Proof.
  induction probes as [|p probes IH]; [done|].
  cbn [map]. rewrite filter_cons. by rewrite decide_False.
Qed.

Lemma call_value_host h n id args s :
  call_value h n (VFun (FHost id)) args s =
  mkRes (fn_outcome h id args s) s [EvCall id args].
Proof.
  destruct n; cbn [call_value]; unfold call_host;
    cbv [bind get_store emit outcome final events];
    by destruct (fn_outcome h id args s).
Qed.

(** A call of a plain value leaves the store alone and reports nothing. *)
Lemma call_value_plain h n v args s :
  plain v = true ->
  final (call_value h n v args s) = s /\
  filter (fun e => is_report e = true) (events (call_value h n v args s)) = [].
Proof.
  intros Hv. destruct v as [| | | | | |[id|b|]]; try discriminate;
    try (destruct n; done).
  - by rewrite call_value_host.
  - assert (Hc : call_value h n (VFun (FLocateFile b)) args s =
                 (x <- read_binding b;;
                  match binary x ≫= path, args with
                  | Some p, VStr file :: _ =>
                      ret (VStr (path_resolve h [dirname h p; file]))
                  | _, _ => throw (TypeError "Path must be a string")
                  end) s) by (by destruct n).
    rewrite Hc. unfold read_binding, bind.
    destruct (bindings s !! b) as [x|]; cbn [outcome final events]; [|done].
    destruct (binary x ≫= path) as [p|]; [|done].
    destruct args as [|[] args]; done.
Qed.

(** No call writes to the store: host functions and callbacks are
    observers, and the closures of [initAsm] only call. *)
Lemma call_value_final h n v args s : final (call_value h n v args s) = s.
Proof.
  revert v args s. induction n as [|n IH]; intros v args s;
    destruct v as [| | | | | |[id|b|orig l b cb]]; try reflexivity;
    try (by rewrite call_value_host);
    try (cbn [call_value]; unfold read_binding, bind;
         destruct (bindings s !! b) as [x|]; cbn [outcome final events]; [|done];
         destruct (binary x ≫= path); [|done];
         by destruct args as [|[] args]).
  change (VFun (FRuntimeInitialized orig l b cb)) with (ready_hook orig l b cb).
  rewrite call_ready_hook. cbn zeta.
  assert (Hrh : final ((if truthy orig then call_value h n orig args
                        else ret VUndefined) s) = s).
  { destruct (truthy orig); [apply IH|done]. }
  destruct ((if truthy orig then call_value h n orig args else ret VUndefined) s)
    as [[e|w] s1 evh]; cbn [outcome final events] in *; [done|].
  subst s1. apply IH.
Qed.

Lemma call_value_not_function h n v args s :
  is_function v = false ->
  call_value h n v args s = mkRes (inl (TypeError "not a function")) s [].
Proof. intros Hv. by destruct v, n. Qed.

(** ** The fixtures *)

Lemma host_addon_locates : locates host_addon (Some "/proj") found_addon.
Proof.
  apply (locates_by_search host_addon (Some "/proj")
           ["/proj/nbind.node"; "/proj/build/nbind.node";
            "/proj/build/Debug/nbind.node"; release_addon]
           node_spec release_addon); [left; reflexivity | reflexivity].
Defined.

Lemma quiet_cbs_ok files load fns id :
  quiet (fixture_host files load fns cbs_ok) (Some id).
Proof. intros err result s. reflexivity. Defined.

(** ** C6 *)

(** C6: native addon with a preset object.  In the binding delivered to
    the callback and returned by [init], the exports object is the preset
    object; a preset key that the loaded module does not have keeps its
    preset value; every key of the loaded module is there with the
    module's value, also when the preset had the key. *)
Theorem preset_exports_merge h basePath dst cb s found p src :
  locates h basePath found ->
  type found = node ->
  path found = Some p ->
  require_load h p = LoadValue [] (VObj src) ->
  returns_on_success h cb ->
  let r := init h basePath (Some dst) cb s in
  outcome r = inr (new_loc s) /\
  last (events r) =
    Some (EvCallback (to_callback cb) None (Some (new_loc s)) (final r)) /\
  bindings (final r) !! new_loc s = Some (mkBinding (Some found) (Some dst)) /\
  (forall k v,
      obj_of s dst !! k = Some v -> obj_of s src !! k = None ->
      obj_of (final r) dst !! k = Some v) /\
  (forall k v,
      obj_of s src !! k = Some v -> obj_of (final r) dst !! k = Some v).
Proof.
  intros Hloc Hty Hpath Hload Hq r.
  destruct (init_native_success h basePath (Some dst) cb s found p src
              Hloc Hty Hpath Hload (Hq _ _)) as [probes Hinit].
  subst r. rewrite Hinit. cbn [outcome final events].
  split; [done|]. split; [by rewrite last_app|].
  split; [apply native_ready_binding|].
  pose proof (native_ready_exports found (Some dst) src s) as Hex.
  cbn [exports_loc] in Hex. rewrite Hex. split.
  - intros k v Hd Hs. by rewrite lookup_union, Hs, Hd.
  - intros k v Hs. rewrite lookup_union, Hs. by destruct (obj_of s dst !! k).
Qed.

(** C6 on the fixture: the preset's [debug] survives, the module's [add]
    arrives, and [version] takes the module's value. *)
Lemma preset_exports_merge_witness :
  let r := init host_addon (Some "/proj") (Some 12%positive) (Some 0) store_with_addon in
  obj_of (final r) 12%positive !! "debug" = Some (VBool true) /\
  obj_of (final r) 12%positive !! "add" = Some (VFun (FHost 7)) /\
  obj_of (final r) 12%positive !! "version" = Some (VStr "1.0").
Proof.
  destruct (preset_exports_merge host_addon (Some "/proj") 12%positive (Some 0)
              store_with_addon found_addon release_addon 11%positive
              host_addon_locates eq_refl eq_refl eq_refl
              (quiet_returns_on_success _ _ (quiet_cbs_ok _ _ _ 0)))
    as (_ & _ & _ & Hkeep & Hmod).
  split; [|split].
  - by apply Hkeep.
  - by apply Hmod.
  - by apply Hmod.
Defined.

(** ** C7 *)

(** C7, counterexample: the caller passes the addon's own exports object
    (location 11, which the loader returns) as preset.  The initialization
    succeeds, with the new binding reported to the callback, and the
    binding's exports are that very object. *)
Lemma exports_detached_fails :
  let r := init host_addon (Some "/proj") (Some 11%positive) (Some 0) store_with_addon in
  filter (fun e => is_report e = true) (events r) =
    [EvCallback (user_callback 0) None (Some (new_loc store_with_addon)) (final r)] /\
  ~ exports_detached host_addon (Some "/proj") (Some 11%positive) (Some 0)
      store_with_addon 11%positive.
Proof.
  split; [by vm_compute|].
  intros (b & x & l & Hout & Hb & Hl & Hne & _).
  vm_compute in Hout. injection Hout as <-.
  vm_compute in Hb. injection Hb as <-.
  cbn in Hl. injection Hl as <-. by apply Hne.
Qed.

Lemma detached_distinct s l src :
  l <> src ->
  (forall k v, obj_of s src !! k = Some v -> obj_of s l !! k = Some v) ->
  detached s l src.
Proof.
  intros Hne Hsub. split; [done|]. split; [done|].
  repeat split; intros;
    rewrite ?obj_of_write_prop, ?obj_of_remove_prop;
    by rewrite decide_False by done.
Qed.

(** C7, as amended: after a successful native initialization in which the
    loaded exports object is an object of the store and is not itself the
    preset object the caller passed, the binding's exports object is a
    different object that has every entry of the module (and, when no
    preset was passed, no other entry), and setting or deleting a key of
    either object leaves the other unchanged. *)
Theorem native_exports_detached h basePath preset cb s found p src :
  locates h basePath found ->
  type found = node ->
  path found = Some p ->
  require_load h p = LoadValue [] (VObj src) ->
  returns_on_success h cb ->
  is_Some (objects s !! src) ->
  preset <> Some src ->
  let r := init h basePath preset cb s in
  exports_detached h basePath preset cb s src /\
  bindings (final r) !! new_loc s =
    Some (mkBinding (Some found) (Some (exports_loc preset s))) /\
  (preset = None ->
   obj_of (final r) (exports_loc preset s) = obj_of (final r) src).
Proof.
  intros Hloc Hty Hpath Hload Hq Hsrc Hpre r.
  destruct (init_native_success h basePath preset cb s found p src
              Hloc Hty Hpath Hload (Hq _ _)) as [probes Hinit].
  subst r. unfold exports_detached. rewrite Hinit. cbn [outcome final].
  split; [|split; [apply native_ready_binding|]].
  - exists (new_loc s), (mkBinding (Some found) (Some (exports_loc preset s))),
      (exports_loc preset s).
    split; [done|]. split; [apply native_ready_binding|]. split; [done|].
    apply detached_distinct.
    + destruct preset as [l|]; [cbn; congruence|]. by apply prepared_fresh_exports.
    + intros k v Hk. rewrite native_ready_source in Hk.
      rewrite native_ready_exports, lookup_union, Hk.
      by destruct (obj_of s (exports_loc preset s) !! k).
  - intros ->. rewrite native_ready_exports, native_ready_source.
    assert (Hnew : obj_of s (exports_loc None s) = ∅).
    { unfold obj_of, exports_loc.
      assert (Hf : objects s !! fresh (dom (objects s)) = None).
      { apply not_elem_of_dom. apply is_fresh. }
      by rewrite Hf. }
    rewrite Hnew. apply (right_id_L ∅ (∪)).
Qed.

(** The amended C7 on the fixture, without a preset: the exports object is
    a new one, distinct from the addon's object at location 11. *)
Lemma native_exports_detached_witness :
  exports_detached host_addon (Some "/proj") None (Some 0) store_with_addon 11%positive.
Proof.
  apply (native_exports_detached host_addon (Some "/proj") None (Some 0)
           store_with_addon found_addon release_addon 11%positive
           host_addon_locates eq_refl eq_refl eq_refl
           (quiet_returns_on_success _ _ (quiet_cbs_ok _ _ _ 0))).
  - by exists addon_exports.
  - discriminate.
Defined.

(** ** C9 *)

(** C9: on the native branch, with the value [v] that the loader returns,
    [initNode] reports the load error exactly when [v] is falsy or is not
    of type object; then nothing is written to the store, and the only
    call of the callback is that report. *)
Theorem addon_load_error h b found dst p v cb s :
  bindings s !! b = Some (mkBinding (Some found) (Some dst)) ->
  path found = Some p ->
  require_load h p = LoadValue [] v ->
  let r := initNode h b cb s in
  ((exists seen, EvCallback cb (Some load_error) None seen ∈ events r) <->
   (truthy v = false \/ typeof v <> "object")) /\
  (truthy v = false \/ typeof v <> "object" ->
   final r = s /\
   events r = [EvRequire p; EvCallback cb (Some load_error) None s]).
Proof.
  intros Hb Hp Hl r.
  assert (Hpath : binary (mkBinding (Some found) (Some dst)) ≫= path = Some p)
    by (by cbn; rewrite Hp).
  assert (Htest : negb (truthy v) || negb (String.eqb (typeof v) "object") = true <->
                  truthy v = false \/ typeof v <> "object").
  { rewrite orb_true_iff, !negb_true_iff. split; intros [H1|H2]; auto.
    - right. by apply String.eqb_neq.
    - right. by apply String.eqb_neq. }
  assert (Hrej : truthy v = false \/ typeof v <> "object" ->
                 final r = s /\
                 events r = [EvRequire p; EvCallback cb (Some load_error) None s]).
  { intros Hv. apply Htest in Hv. subst r.
    by rewrite (initNode_rejected h b _ p v cb s Hb Hpath Hl Hv). }
  split; [|done]. split.
  - intros [seen Hin].
    destruct (negb (truthy v) || negb (String.eqb (typeof v) "object")) eqn:Ht.
    + by apply Htest.
    + apply addon_test_object in Ht as [src ->]. subst r.
      rewrite (initNode_object h b _ p src dst cb s Hb Hpath eq_refl Hl) in Hin.
      cbn [events] in Hin.
      apply elem_of_cons in Hin as [Hin|Hin]; [discriminate|].
      apply elem_of_cons in Hin as [Hin|Hin]; [discriminate|].
      by apply elem_of_nil in Hin.
  - intros Hv. destruct (Hrej Hv) as [_ ->]. exists s. by right; left.
Qed.

(** C9 on a fixture whose addon loads to [null]. *)
Lemma addon_load_error_witness :
  let h := fixture_host [release_addon] (fun _ => LoadValue [] VNull) fns_ok cbs_ok in
  let s := prepared 1%positive found_addon None empty_store in
  events (initNode h 1%positive (user_callback 0) s) =
  [EvRequire release_addon; EvCallback (user_callback 0) (Some load_error) None s].
Proof.
  intros h s.
  destruct (addon_load_error h 1%positive found_addon 1%positive release_addon
              VNull (user_callback 0) s eq_refl eq_refl eq_refl) as [_ Hrej].
  by destruct (Hrej (or_introl eq_refl)) as [_ ->].
Defined.

(** ** The runtime-ready hook *)

Lemma asm_loading_hook found preset cb s :
  prop (asm_loading found preset cb s) (exports_loc preset s) "onRuntimeInitialized" =
  ready_hook (prop s (exports_loc preset s) "onRuntimeInitialized")
             (exports_loc preset s) (new_loc s) (to_callback cb).
Proof.
  unfold asm_loading, prop at 1.
  change (exports_loc preset s) with (exports_loc preset (with_binding s)).
  rewrite asm_installed_lookup, decide_True by done. cbn [default from_option id].
  unfold prop. by rewrite obj_of_prepared.
Qed.

Lemma asm_loading_binding found preset cb s :
  bindings (asm_loading found preset cb s) !! new_loc s =
    Some (mkBinding (Some found) (Some (exports_loc preset s))) /\
  currentBinding (asm_loading found preset cb s) = Some (new_loc s).
Proof.
  split; [|done]. apply (prepared_binding (new_loc s) found preset (with_binding s)).
Qed.

Lemma filter_report_nil_elem evs ev :
  filter (fun e => is_report e = true) evs = [] -> ev ∈ evs -> is_report ev = false.
Proof.
  intros Hf Hin. destruct (is_report ev) eqn:Hr; [|done].
  assert (Hin' : ev ∈ filter (fun e => is_report e = true) evs)
    by (by apply list_elem_of_filter).
  rewrite Hf in Hin'. by apply elem_of_nil in Hin'.
Qed.

(** A call of the runtime-ready closure around a plain previous hook that
    returns, with a plain [ccall]: the store is untouched and the callback
    is invoked once, with the bootstrap exception and no binding or with
    no error and the binding. *)
Lemma ready_hook_reports_once h n orig l b cb args s :
  plain orig = true ->
  plain (prop s l "ccall") = true ->
  (truthy orig = true -> exists w, outcome (call_value h n orig args s) = inr w) ->
  let r := call_value h (S n) (ready_hook orig l b cb) args s in
  final r = s /\
  exists err res,
    filter (fun e => is_report e = true) (events r) = [EvCallback cb err res s] /\
    ((exists e, err = Some e /\ res = None) \/ (err = None /\ res = Some b)).
Proof.
  intros Ho Hc Hret r. subst r. rewrite call_ready_hook.
  destruct (call_value_plain h n orig args s Ho) as [Hfo Heo].
  assert (Hrh : exists w evh,
    (if truthy orig then call_value h n orig args else ret VUndefined) s =
      mkRes (inr w) s evh /\
    filter (fun e => is_report e = true) evh = []).
  { destruct (truthy orig).
    - destruct (Hret eq_refl) as [w Hw].
      destruct (call_value h n orig args s) as [o f evs].
      cbn [outcome final events] in *. subst. by exists w, evs.
    - by exists VUndefined, []. }
  destruct Hrh as (w & evh & -> & Hevh). cbn [outcome final events].
  destruct (call_value_plain h n (prop s l "ccall") [VStr "nbind_init"] s Hc)
    as [Hfb Heb].
  rewrite Hfb. split; [done|].
  rewrite !filter_app, Hevh, Heb. cbn [app].
  rewrite filter_cons, decide_True by done. rewrite filter_nil.
  destruct (outcome (call_value h n (prop s l "ccall") [VStr "nbind_init"] s))
    as [e|u]; eauto 8.
Qed.

(** ** C8 *)

(** C8, counterexample: the bundle defines [ccall] while it is loaded and
    [init] returns the binding, but the caller's own runtime-ready hook
    raises.  The readiness signal then ends with that exception after the
    single call of the hook: the bootstrap function is not called and the
    callback is not invoked. *)
Lemma bootstrap_reported_fails :
  let h := host_defining_hook_fails in
  let r := init h (Some "/proj") (Some 12%positive) (Some 0) store_with_hook in
  outcome r = inr (new_loc store_with_hook) /\
  prop (final r) 12%positive "ccall" = VFun (FHost 3) /\
  runtime_ready h (final r) = mkRes (inl hook_error) (final r) [EvCall 5 []] /\
  ~ bootstrap_reported h (final r).
Proof.
  split; [by vm_compute|]. split; [by vm_compute|].
  assert (Hr : runtime_ready host_defining_hook_fails
                 (final (init host_defining_hook_fails (Some "/proj")
                           (Some 12%positive) (Some 0) store_with_hook)) =
               mkRes (inl hook_error)
                 (final (init host_defining_hook_fails (Some "/proj")
                           (Some 12%positive) (Some 0) store_with_hook))
                 [EvCall 5 []]) by (by vm_compute).
  split; [exact Hr|].
  intros [[j Hj] _]. rewrite Hr in Hj. cbn [events] in Hj.
  apply list_elem_of_singleton in Hj. discriminate Hj.
Qed.

(** C8, as amended.  [initAsm] installs, before it loads the bundle, a
    runtime-ready closure around the caller's hook, and publishes the
    populated binding as current; the readiness signal of the bundle is a
    call of that closure as long as it is the hook of the current
    binding's exports.  Whenever the closure is called, in whatever store
    and with whatever arguments:

    - the caller's hook, if it is truthy, is called first, with the same
      arguments; if it raises, the call ends with that exception and
      nothing else happens: no bootstrap call, no call of the callback;
    - if it returns, or there is none, [ccall('nbind_init')] is called
      next, whatever [ccall] is; if that raises, the callback is invoked
      with the exception and no binding; if it returns, the callback is
      invoked with no error and the binding.  That call of the callback
      is the last event, and its outcome is the outcome of the closure.

    No call writes to the store.  The last five parts spell the two calls
    out: a falsy hook, no hook at all, a hook and a [ccall] that are host
    functions, and a [ccall] that is not a function. *)
Theorem bootstrap_outcome_reported h b found l cb s s1 n args :
  bindings s !! b = Some (mkBinding (Some found) (Some l)) ->
  let orig := prop s l "onRuntimeInitialized" in
  let hook := ready_hook orig l b cb in
  let s' := asm_installed b l cb s in
  (initAsm h b cb s = after [] (require_binary h b s') tt /\
   prop s' l "onRuntimeInitialized" = hook /\
   currentBinding s' = Some b /\
   populated s' b) /\
  (currentBinding s1 = Some b ->
   bindings s1 !! b = bindings s' !! b ->
   prop s1 l "onRuntimeInitialized" = hook ->
   runtime_ready h s1 = after [] (call_value h (S (max_nesting h)) hook [] s1) tt) /\
  let r := call_value h (S n) hook args s1 in
  let rh := (if truthy orig then call_value h n orig args else ret VUndefined) s1 in
  let rb := call_value h n (prop s1 l "ccall") [VStr "nbind_init"] s1 in
  final r = s1 /\
  (forall e, outcome rh = inl e -> outcome r = inl e /\ events r = events rh) /\
  (forall w, outcome rh = inr w ->
     (forall e, outcome rb = inl e ->
        events r = events rh ++ events rb ++ [EvCallback cb (Some e) None s1] /\
        outcome r = match callback_result h cb (Some e) None s1 with
                    | inl e' => inl e'
                    | inr _ => inr VUndefined
                    end) /\
     (forall w', outcome rb = inr w' ->
        events r = events rh ++ events rb ++ [EvCallback cb None (Some b) s1] /\
        outcome r = match callback_result h cb None (Some b) s1 with
                    | inl e' => inl e'
                    | inr _ => inr VUndefined
                    end /\
        (bindings s1 !! b = bindings s' !! b -> populated s1 b))) /\
  (truthy orig = false -> rh = mkRes (inr VUndefined) s1 []) /\
  (orig = VUndefined -> rh = mkRes (inr VUndefined) s1 []) /\
  (forall i, orig = VFun (FHost i) ->
     rh = mkRes (fn_outcome h i args s1) s1 [EvCall i args]) /\
  (forall j, prop s1 l "ccall" = VFun (FHost j) ->
     rb = mkRes (fn_outcome h j [VStr "nbind_init"] s1) s1
                [EvCall j [VStr "nbind_init"]]) /\
  (is_function (prop s1 l "ccall") = false ->
     rb = mkRes (inl (TypeError "not a function")) s1 []).
Proof.
  intros Hb orig hook s'.
  assert (Hbs : bindings s' !! b = Some (mkBinding (Some found) (Some l)))
    by exact Hb.
  split.
  { split; [apply (initAsm_unfold h b _ l cb s Hb eq_refl)|].
    split; [|split; [done|by exists found, l]].
    subst s'. unfold prop at 1.
    by rewrite asm_installed_lookup, decide_True by done. }
  split.
  { intros Hc1 Hb1 Hh1. rewrite Hbs in Hb1.
    apply (runtime_ready_fires h b _ l _ cb s1 Hc1 Hb1 eq_refl Hh1). }
  intros r rh rb.
  assert (Hfh : final rh = s1).
  { subst rh. destruct (truthy orig); [apply call_value_final|done]. }
  assert (Hr : r =
    match outcome rh with
    | inl e => mkRes (inl e) s1 (events rh)
    | inr _ =>
        let err := match outcome rb with inl e => Some e | inr _ => None end in
        let res := match outcome rb with inl _ => None | inr _ => Some b end in
        mkRes (match callback_result h cb err res s1 with
               | inl e' => inl e'
               | inr _ => inr VUndefined
               end) s1
              (events rh ++ events rb ++ [EvCallback cb err res s1])
    end).
  { subst r hook. rewrite call_ready_hook. cbn zeta. fold rh. rewrite Hfh. fold rb.
    by rewrite (call_value_final h n _ _ s1 : final rb = s1). }
  split; [rewrite Hr; by destruct (outcome rh)|].
  split; [intros e He; by rewrite Hr, He|].
  split.
  { intros w Hw. rewrite Hr, Hw. cbn zeta. split.
    - intros e He. by rewrite He.
    - intros w' Hw'. rewrite Hw'. split; [done|]. split; [done|].
      intros Hb1. exists found, l. by rewrite Hb1. }
  split; [intros Ht; subst rh; by rewrite Ht|].
  split; [intros Ho; subst rh; by rewrite Ho|].
  split; [intros i Hi; subst rh; rewrite Hi; cbn [truthy]; apply call_value_host|].
  split; [intros j Hj; subst rb; rewrite Hj; apply call_value_host|].
  intros Hf. subst rb. by apply call_value_not_function.
Qed.

(** The amended C8 on the fixture whose bootstrap function raises: the
    readiness signal is the caller's hook, then the bootstrap call, then
    the failure report. *)
Lemma bootstrap_outcome_reported_witness :
  let s := prepared 1%positive found_bundle (Some 12%positive) store_with_hook in
  let s1 := write_prop 12%positive "ccall" (VFun (FHost 3))
              (asm_installed 1%positive 12%positive (user_callback 0) s) in
  events (runtime_ready host_bundle_fails s1) =
  [EvCall 5 []; EvCall 3 [VStr "nbind_init"];
   EvCallback (user_callback 0) (Some boot_error) None s1].
Proof.
  intros s s1.
  destruct (bootstrap_outcome_reported host_bundle_fails 1%positive found_bundle
              12%positive (user_callback 0) s s1 (max_nesting host_bundle_fails) []
              eq_refl) as (_ & Hsignal & _ & _ & Hret & _).
  rewrite (Hsignal eq_refl eq_refl eq_refl).
  destruct (Hret VUndefined eq_refl) as [Hraise _].
  destruct (Hraise boot_error eq_refl) as [Hev _].
  unfold after. cbn [events app]. rewrite Hev. reflexivity.
Defined.

(** ** C10 *)

Lemma new_loc_fresh s : bindings s !! new_loc s = None.
Proof. unfold new_loc. apply not_elem_of_dom. apply is_fresh. Qed.

Lemma filter_report_native probes p ev :
  is_report ev = true ->
  filter (fun e => is_report e = true) (map EvResolve probes ++ [EvRequire p; ev]) = [ev].
Proof.
  intros Hev. rewrite filter_app, filter_report_resolve. cbn [app].
  rewrite filter_cons, decide_False by done.
  by rewrite filter_cons, decide_True by done.
Qed.

(** C10: [init] returns the binding it created, a new object of the
    store, and every success report passes that same binding.  On the
    native branch the report is made before [init] returns, and at the
    return the binding holds the located spec and an exports object with
    every entry of the loaded module.  On the asm.js branch nothing is
    reported before [init] returns; the installed runtime-ready closure
    carries the returned binding and passes it when it reports success. *)
Theorem returned_binding_is_delivered h basePath preset cb s found p :
  locates h basePath found ->
  path found = Some p ->
  let r := init h basePath preset cb s in
  let b := new_loc s in
  let l := exports_loc preset s in
  bindings s !! b = None /\
  (forall src,
      type found = node ->
      require_load h p = LoadValue [] (VObj src) ->
      returns_on_success h cb ->
      outcome r = inr b /\
      filter (fun e => is_report e = true) (events r) =
        [EvCallback (to_callback cb) None (Some b) (final r)] /\
      bindings (final r) !! b = Some (mkBinding (Some found) (Some l)) /\
      (forall k v, obj_of s src !! k = Some v -> obj_of (final r) l !! k = Some v)) /\
  (forall v,
      type found = emcc ->
      require_load h p = LoadValue [] v ->
      outcome r = inr b /\
      filter (fun e => is_report e = true) (events r) = [] /\
      bindings (final r) !! b = Some (mkBinding (Some found) (Some l)) /\
      exists orig,
        prop (final r) l "onRuntimeInitialized" =
          ready_hook orig l b (to_callback cb) /\
        forall n args s1 c res seen,
          plain orig = true ->
          plain (prop s1 l "ccall") = true ->
          EvCallback c None res seen ∈
            events (call_value h (S n) (ready_hook orig l b (to_callback cb)) args s1) ->
          res = Some b).
Proof.
  intros Hloc Hpath r b l. split; [apply new_loc_fresh|]. split.
  - intros src Hty Hload Hq.
    destruct (init_native_success h basePath preset cb s found p src
                Hloc Hty Hpath Hload (Hq _ _)) as [probes Hinit].
    subst r. rewrite Hinit. cbn [outcome final events].
    split; [done|]. split; [by apply filter_report_native|].
    split; [apply native_ready_binding|].
    intros k v Hk. subst l. rewrite native_ready_exports, lookup_union, Hk.
    by destruct (obj_of s (exports_loc preset s) !! k).
  - intros v Hty Hload.
    destruct (init_asm_loading h basePath preset cb s found p v
                Hloc Hty Hpath Hload) as [probes Hinit].
    subst r. rewrite Hinit. cbn [outcome final events].
    split; [done|]. split.
    { rewrite filter_app, filter_report_resolve. cbn [app].
      by rewrite filter_cons, decide_False by done. }
    split; [apply asm_loading_binding|].
    exists (prop s l "onRuntimeInitialized"). split; [apply asm_loading_hook|].
    intros n args s1 c res seen Ho Hc Hin.
    rewrite call_ready_hook in Hin.
    destruct (call_value_plain h n (prop s l "onRuntimeInitialized") args s1 Ho)
      as [Hfo Heo].
    assert (Hrh :
      final ((if truthy (prop s l "onRuntimeInitialized")
              then call_value h n (prop s l "onRuntimeInitialized") args
              else ret VUndefined) s1) = s1 /\
      filter (fun e => is_report e = true)
        (events ((if truthy (prop s l "onRuntimeInitialized")
                  then call_value h n (prop s l "onRuntimeInitialized") args
                  else ret VUndefined) s1)) = []).
    { by destruct (truthy (prop s l "onRuntimeInitialized")). }
    destruct Hrh as [Hfh Heh].
    destruct ((if truthy (prop s l "onRuntimeInitialized")
               then call_value h n (prop s l "onRuntimeInitialized") args
               else ret VUndefined) s1) as [[e|w] sh evh];
      cbn [outcome final events] in *; subst sh.
    + by pose proof (filter_report_nil_elem _ _ Heh Hin).
    + destruct (call_value_plain h n (prop s1 l "ccall") [VStr "nbind_init"] s1 Hc)
        as [Hfb Heb].
      apply elem_of_app in Hin as [Hin|Hin];
        [by pose proof (filter_report_nil_elem _ _ Heh Hin)|].
      apply elem_of_app in Hin as [Hin|Hin];
        [by pose proof (filter_report_nil_elem _ _ Heb Hin)|].
      apply list_elem_of_singleton in Hin.
      destruct (outcome (call_value h n (prop s1 l "ccall") [VStr "nbind_init"] s1));
        by injection Hin as -> ?.
Qed.

(** C10 on the fixture: the native initialization returns the new
    binding, populated, and reports that same binding. *)
Lemma returned_binding_is_delivered_witness :
  let r := init host_addon (Some "/proj") None (Some 0) store_with_addon in
  outcome r = inr (new_loc store_with_addon) /\
  filter (fun e => is_report e = true) (events r) =
    [EvCallback (user_callback 0) None (Some (new_loc store_with_addon)) (final r)] /\
  populated (final r) (new_loc store_with_addon).
Proof.
  destruct (returned_binding_is_delivered host_addon (Some "/proj") None (Some 0)
              store_with_addon found_addon release_addon
              host_addon_locates eq_refl) as (_ & Hnative & _).
  destruct (Hnative 11%positive eq_refl eq_refl
              (quiet_returns_on_success _ _ (quiet_cbs_ok _ _ _ 0)))
    as (Hout & Hrep & Hb & _).
  split; [exact Hout|]. split; [exact Hrep|]. eexists _, _. exact Hb.
Defined.

(** ** C2 *)

(** C2, counterexample: the addon is found but the loader raises (as it
    does for a binary built against another runtime).  [init] ends with
    that exception and the callback, although one is given and never
    raises, is not invoked at all. *)
Lemma reported_once_fails :
  let r := init host_broken_addon (Some "/proj") None (Some 0) empty_store in
  outcome r = inl (mkError ("Cannot find module '" +:+ release_addon +:+ "'") None) /\
  filter (fun e => is_report e = true) (events r) = [] /\
  ~ reported_once (events r).
Proof.
  split; [by vm_compute|]. split; [by vm_compute|].
  intros (ev & Hf & _). vm_compute in Hf. discriminate Hf.
Qed.

(** The callback can also be invoked twice.  Here the root is the addon
    file itself and loads to [null]; no callback is given, so [rethrow]
    raises the load error inside the [try] of the first loop, the search
    goes on, and [rethrow] is invoked again with the locator's error. *)
Example literal_root_reports_twice :
  let h := fixture_host ["/proj/nbind.node"] (fun _ => LoadValue [] VNull)
                        fns_ok cbs_ok in
  let r := init h (Some "/proj/nbind.node") None None empty_store in
  exists attempted,
    reported_errors (events r) =
      [Some load_error; Some (locate_error attempted)] /\
    head attempted = Some "/proj/nbind.node" /\
    outcome r = inl (locate_error attempted).
Proof. eexists. repeat split. Qed.

(** A bundle may signal readiness while it is being loaded: then the
    callback is invoked before [init] returns. *)
Example bundle_ready_during_load :
  let h := fixture_host [bundle_path]
             (fun _ => LoadValue [ActDefine "ccall" (VFun (FHost 3)); ActReady]
                                 VUndefined)
             fns_ok cbs_ok in
  let r := init h (Some "/proj") None (Some 0) empty_store in
  outcome r = inr (new_loc empty_store) /\
  drop 11 (events r) =
    [EvRequire bundle_path; EvCall 3 [VStr "nbind_init"];
     EvCallback (user_callback 0) None (Some (new_loc empty_store)) (final r)].
Proof. split; by vm_compute. Qed.

(** *** The load *)

Lemma searched_by_search h basePath probed spec p :
  fast_tries h (root_of h basePath) registry = [] \/
    require_resolve h (root_of h basePath) = None ->
  scan h (candidates h (root_of h basePath) registry) = (probed, Some (spec, p)) ->
  searched h basePath (set_path spec p).
Proof.
  intros Hfast Hscan.
  exists (fast_tries h (root_of h basePath) registry ++ probed).
  intros cb s. unfold find.
  by rewrite (findCompiledModule_scan _ _ _ _ _ Hfast), Hscan.
Defined.

Lemma getLib_final s : final (getLib s) = s.
Proof.
  unfold getLib. rewrite bind_unfold. cbn [get_store outcome final events].
  destruct (currentBinding s) as [b|]; [|done].
  unfold read_binding. rewrite bind_unfold.
  by destruct (bindings s !! b).
Qed.

Lemma runtime_ready_final h s : final (runtime_ready h s) = s.
Proof.
  unfold runtime_ready. rewrite bind_unfold. pose proof (getLib_final s) as Hg.
  destruct (getLib s) as [[e|[l|]] f evs]; cbn [outcome final events] in *;
    subst f; try done.
  rewrite bind_get_prop. destruct (truthy (prop s l "onRuntimeInitialized")); [|done].
  rewrite bind_unfold.
  pose proof (call_value_final h (S (max_nesting h))
                (prop s l "onRuntimeInitialized") [] s) as Hc.
  destruct (call_value h (S (max_nesting h)) (prop s l "onRuntimeInitialized") [] s)
    as [[e|w] f evs']; cbn [outcome final events ret] in *; by subst f.
Qed.

(** The top-level code of a loaded file creates no binding, changes none
    and leaves the current binding as it is. *)
Lemma run_script_bindings h script s :
  bindings (final (run_script h script s)) = bindings s /\
  currentBinding (final (run_script h script s)) = currentBinding s.
Proof.
  revert s. induction script as [|[k v| |e] script IH]; intros s;
    cbn [run_script]; [done| | |done].
  - rewrite bind_unfold. pose proof (getLib_final s) as Hg.
    destruct (getLib s) as [[e|m] f evs]; cbn [outcome final events] in *;
      subst f; [done|].
    rewrite bind_unfold.
    destruct m as [l|]; cbn [set_prop modify throw outcome final events]; [|done].
    by destruct (IH (write_prop l k v s)) as [-> ->].
  - rewrite bind_unfold. pose proof (runtime_ready_final h s) as Hr.
    destruct (runtime_ready h s) as [[e|[]] f evs]; cbn [outcome final events] in *;
      subst f; [done|].
    apply IH.
Qed.

Lemma require_binary_bindings h b s :
  bindings (final (require_binary h b s)) = bindings s /\
  currentBinding (final (require_binary h b s)) = currentBinding s.
Proof.
  unfold require_binary, read_binding. rewrite bind_unfold.
  destruct (bindings s !! b) as [x|]; cbn [outcome final events]; [|done].
  destruct (binary x ≫= path) as [p|]; [|done].
  unfold require. rewrite bind_unfold. cbn [emit outcome final events].
  destruct (require_load h p) as [e|script v]; [done|].
  rewrite bind_unfold. destruct (run_script_bindings h script s) as [Hb Hc].
  by destruct (run_script h script s) as [[e|[]] f evs].
Qed.

(** Once the load has returned, [initNode] invokes the callback exactly
    once more: with the load error if the value is not an object,
    otherwise with the binding, whose exports then hold the copied
    properties. *)
Lemma initNode_loaded h b found l cb s v :
  bindings s !! b = Some (mkBinding (Some found) (Some l)) ->
  outcome (require_binary h b s) = inr v ->
  let load := require_binary h b s in
  exists err res seen,
    native_report cb b l v (final load) = EvCallback cb err res seen /\
    initNode h b cb s =
      mkRes (callback_result h cb err res seen) seen
            (events load ++ [EvCallback cb err res seen]) /\
    good_report (EvCallback cb err res seen).
Proof.
  intros Hb Hv load. subst load. unfold initNode. rewrite bind_unfold.
  destruct (require_binary_bindings h b s) as [Hbs _].
  destruct (require_binary h b s) as [o s5 evl]; cbn [outcome final events] in *.
  subst o.
  destruct (negb (truthy v) || negb (String.eqb (typeof v) "object")) eqn:Ht.
  - exists (Some load_error), None, s5. rewrite call_callback_unfold.
    split; [|done]. by destruct v.
  - apply addon_test_object in Ht as [src ->].
    rewrite bind_unfold. cbn [object_keys outcome final events].
    rewrite bind_unfold. fold (keys_of s5 src).
    rewrite (copy_keys_run b src l (mkBinding (Some found) (Some l)) _ s5);
      [|by rewrite Hbs|done].
    cbn [outcome final events]. rewrite call_callback_unfold.
    exists None, (Some b), (copy_props src l (keys_of s5 src) s5).
    split; [done|]. split; [done|].
    cbn [good_report]. exists found, l.
    destruct (copy_props_bindings src l (keys_of s5 src) s5) as [-> _].
    by rewrite Hbs.
Qed.

Lemma filter_report_last evs ev :
  filter (fun e => is_report e = true) evs = [] ->
  is_report ev = true ->
  filter (fun e => is_report e = true) (evs ++ [ev]) = [ev].
Proof.
  intros Hf Hev. rewrite filter_app, Hf. cbn [app].
  by rewrite filter_cons, decide_True by done.
Qed.

(** C2, as amended.  Whatever the completion callback does:

    - when nothing is located, it is invoked once, with the locator's
      error and no binding; [init] then raises what the callback raised
      or returns the new binding;
    - on the native branch, let the load return without raising and
      without a call of the callback.  If the addon was located by the
      directory search, the callback is invoked once, with the load error
      and no binding or with no error and the populated binding.  The
      same holds wherever the addon was located, also as the root itself,
      if the callback returns from that call; [init] then returns the new
      binding;
    - on the asm.js branch, let the load return without raising and
      without a call of the callback.  Then [init] has not invoked the
      callback when it returns the new binding, which is populated and
      current, and the bundle was loaded with the runtime-ready closure
      in place.  Each later call of that closure invokes the callback
      once, with the bootstrap error and no binding or with no error and
      the binding (populated, if its fields are as [init] left them, so
      that the report is well formed), provided the caller's own hook is
      no closure of an [init] and returns, and [ccall] is no such
      closure.  The readiness signal of
      the bundle is such a call as long as the closure is the hook of the
      current binding's exports. *)
Theorem callback_once_per_outcome h basePath preset cb s :
  let r := init h basePath preset cb s in
  let b := new_loc s in
  let l := exports_loc preset s in
  let reports := filter (fun e => is_report e = true) in
  (forall attempted,
      exhausts h basePath attempted ->
      reports (events r) =
        [EvCallback (to_callback cb) (Some (locate_error attempted)) None (final r)] /\
      reported_once (events r) /\
      outcome r =
        match callback_result h (to_callback cb)
                (Some (locate_error attempted)) None (final r) with
        | inl e => inl e
        | inr _ => inr b
        end) /\
  (forall found v,
      type found = node ->
      let load := require_binary h b (prepared b found preset (with_binding s)) in
      outcome load = inr v ->
      reports (events load) = [] ->
      let ev := native_report (to_callback cb) b l v (final load) in
      (searched h basePath found ->
       reports (events r) = [ev] /\ reported_once (events r)) /\
      (locates h basePath found ->
       returns_from h ev ->
       outcome r = inr b /\
       reports (events r) = [ev] /\ reported_once (events r))) /\
  (forall found v,
      type found = emcc ->
      locates h basePath found ->
      let load := require_binary h b (asm_loading found preset cb s) in
      outcome load = inr v ->
      reports (events load) = [] ->
      let orig := prop s l "onRuntimeInitialized" in
      let hook := ready_hook orig l b (to_callback cb) in
      outcome r = inr b /\
      reports (events r) = [] /\
      populated (final r) b /\
      currentBinding (final r) = Some b /\
      prop (asm_loading found preset cb s) l "onRuntimeInitialized" = hook /\
      (forall n args s1,
          plain orig = true ->
          plain (prop s1 l "ccall") = true ->
          (truthy orig = true ->
           exists w, outcome (call_value h n orig args s1) = inr w) ->
          let fired := events (call_value h (S n) hook args s1) in
          (exists err res,
              reports fired = [EvCallback (to_callback cb) err res s1] /\
              ((exists e, err = Some e /\ res = None) \/
               (err = None /\ res = Some b))) /\
          (bindings s1 !! b = bindings (final r) !! b -> reported_once fired)) /\
      (forall s1,
          currentBinding s1 = Some b ->
          bindings s1 !! b = bindings (final r) !! b ->
          prop s1 l "onRuntimeInitialized" = hook ->
          events (runtime_ready h s1) =
          events (call_value h (S (max_nesting h)) hook [] s1))).
Proof.
  intros r b l reports. subst r b l reports. cbn beta. split; [|split].
  - intros attempted Hex.
    rewrite (init_exhausted h basePath preset cb s attempted Hex).
    cbn [outcome final events].
    assert (Hf : filter (fun e => is_report e = true)
                   (map EvResolve attempted ++
                    [EvCallback (to_callback cb) (Some (locate_error attempted)) None
                                (with_binding s)]) =
                 [EvCallback (to_callback cb) (Some (locate_error attempted)) None
                             (with_binding s)]).
    { apply filter_report_last; [apply filter_report_resolve|done]. }
    split; [done|]. split; [|done]. eexists. split; [exact Hf|done].
  - intros found v Hty load Hv Hnone ev.
    destruct (initNode_loaded h (new_loc s) found (exports_loc preset s)
                (to_callback cb)
                (prepared (new_loc s) found preset (with_binding s)) v
                (prepared_binding _ _ _ _) Hv)
      as (err & res & seen & Hev & Hnode & Hgood).
    fold load in Hnode, Hev. fold ev in Hev.
    assert (Hfound :
      init_found h (new_loc s) preset (to_callback cb) None (Some found)
                 (with_binding s) =
      mkRes (callback_result h (to_callback cb) err res seen) seen
            (events load ++ [ev])).
    { by rewrite init_found_located, Hty, Hev. }
    assert (Honce : forall probes,
      filter (fun e => is_report e = true)
             (map EvResolve probes ++ events load ++ [ev]) = [ev]).
    { intros probes. rewrite filter_app, filter_report_resolve. cbn [app].
      apply filter_report_last; [done|by rewrite Hev]. }
    rewrite <- Hev in Hgood.
    split.
    + intros [probes Hs]. rewrite init_unfold, Hs, Hfound.
      unfold after. cbn [events app].
      split; [apply Honce|]. exists ev. split; [apply Honce|done].
    + intros [probes Hloc] Hret. rewrite init_unfold.
      rewrite Hev in Hret. cbn [returns_from] in Hret.
      rewrite Hloc by (by rewrite Hfound).
      rewrite Hfound. unfold after. cbn [outcome final events app].
      rewrite Hret. split; [done|].
      split; [apply Honce|]. exists ev. split; [apply Honce|done].
  - intros found v Hty [probes Hloc] load Hv Hnone orig hook.
    assert (Hfound :
      init_found h (new_loc s) preset (to_callback cb) None (Some found)
                 (with_binding s) =
      mkRes (inr tt) (final load) (events load)).
    { rewrite init_found_located, Hty.
      rewrite (initAsm_unfold h (new_loc s) _ (exports_loc preset s) _ _
                 (prepared_binding _ _ _ _)) by done.
      change (asm_installed (new_loc s) (exports_loc preset s) (to_callback cb)
                (prepared (new_loc s) found preset (with_binding s)))
        with (asm_loading found preset cb s).
      fold load. unfold after. by rewrite Hv. }
    assert (Hr : init h basePath preset cb s =
                 mkRes (inr (new_loc s)) (final load)
                       (map EvResolve probes ++ events load)).
    { rewrite init_unfold, Hloc by (by rewrite Hfound). rewrite Hfound.
      reflexivity. }
    destruct (require_binary_bindings h (new_loc s) (asm_loading found preset cb s))
      as [Hbs Hcs]. fold load in Hbs, Hcs.
    destruct (asm_loading_binding found preset cb s) as [Hb Hc].
    rewrite Hr. cbn [outcome final events].
    split; [done|]. split.
    { by rewrite filter_app, filter_report_resolve, Hnone. }
    split; [exists found, (exports_loc preset s); by rewrite Hbs|].
    split; [by rewrite Hcs|].
    split; [apply asm_loading_hook|].
    split.
    + intros n args s1 Ho Hcc Hret.
      destruct (ready_hook_reports_once h n orig (exports_loc preset s) (new_loc s)
                  (to_callback cb) args s1 Ho Hcc Hret)
        as (Hfin & err & res & Hf & Hgood).
      fold hook in Hf. split; [by exists err, res|].
      intros Hb1. rewrite Hbs, Hb in Hb1.
      unfold reported_once. rewrite Hf. eexists. split; [done|].
      destruct Hgood as [(e & -> & ->)|[-> ->]]; cbn [good_report]; [done|].
      by eexists _, _.
    + intros s1 Hc1 Hb1 Hh1. rewrite Hbs, Hb in Hb1.
      rewrite (runtime_ready_fires h (new_loc s) _ (exports_loc preset s) _ _ s1
                 Hc1 Hb1 eq_refl Hh1).
      unfold after. cbn [events app]. reflexivity.
Qed.

(** The amended C2 on four fixtures: nothing to find and no callback
    given; an addon that loads, no callback given; a bundle that defines
    its entry points while it is loaded and signals readiness once after
    [init]; and the addon as the root itself, with a callback that
    returns. *)
Lemma callback_once_per_outcome_witness :
  reported_once (events (init host_nothing (Some "/proj") None None empty_store)) /\
  reported_once (events (init host_addon (Some "/proj") None None store_with_addon)) /\
  reported_once
    (events (runtime_ready host_bundle_defining
       (final (init host_bundle_defining (Some "/proj") None (Some 0) empty_store)))) /\
  reported_once
    (events (init host_addon (Some release_addon) None (Some 0) store_with_addon)).
Proof.
  split; [|split; [|split]].
  - destruct (callback_once_per_outcome host_nothing (Some "/proj") None None
                empty_store) as (Hex & _ & _).
    apply (Hex _ (exhausts_by_search host_nothing (Some "/proj")
                    (fun H => eq_refl)
                    ltac:(repeat constructor))).
  - destruct (callback_once_per_outcome host_addon (Some "/proj") None None
                store_with_addon) as (_ & Hnode & _).
    destruct (Hnode found_addon (VObj 11%positive) eq_refl eq_refl eq_refl)
      as [Hsearched _].
    apply Hsearched.
    apply (searched_by_search host_addon (Some "/proj")
             ["/proj/nbind.node"; "/proj/build/nbind.node";
              "/proj/build/Debug/nbind.node"; release_addon]
             node_spec release_addon); [left; reflexivity | reflexivity].
  - destruct (callback_once_per_outcome host_bundle_defining (Some "/proj") None
                (Some 0) empty_store) as (_ & _ & Hasm).
    assert (Hloc : locates host_bundle_defining (Some "/proj") found_bundle).
    { apply (locates_by_search host_bundle_defining (Some "/proj")
               (map snd (take 11 (candidates host_bundle_defining "/proj" registry)))
               emcc_spec bundle_path); [left; reflexivity | reflexivity]. }
    destruct (Hasm found_bundle VUndefined eq_refl Hloc eq_refl eq_refl)
      as (_ & _ & _ & _ & _ & Hcall & Hsignal).
    rewrite Hsignal; [|reflexivity..].
    destruct (Hcall (max_nesting host_bundle_defining) []
                (final (init host_bundle_defining (Some "/proj") None (Some 0)
                          empty_store))
                eq_refl eq_refl) as [_ Honce]; [discriminate|].
    apply Honce. reflexivity.
  - destruct (callback_once_per_outcome host_addon (Some release_addon) None
                (Some 0) store_with_addon) as (_ & Hnode & _).
    destruct (Hnode found_addon (VObj 11%positive) eq_refl eq_refl eq_refl)
      as [_ Hlocated].
    apply Hlocated; [|reflexivity].
    apply (locates_literal host_addon (Some release_addon) node_spec
             release_addon); [constructor | reflexivity | reflexivity].
Defined.

(** * Further properties *)

(** ** [Binding.bind] *)

Lemma binding_lib_set b x l s :
  bindings s !! b = Some x -> lib x = Some l ->
  binding_lib b s = mkRes (inr l) s [].
Proof.
  intros Hb Hl. unfold binding_lib, read_binding, bind. rewrite Hb. cbn.
  by rewrite Hl.
Qed.

Lemma bind_binding_lib {A} b x l (k : loc -> M A) s :
  bindings s !! b = Some x -> lib x = Some l ->
  bind (binding_lib b) k s = k l s.
Proof.
  intros Hb Hl. rewrite bind_unfold, (binding_lib_set b x l s Hb Hl).
  cbn [outcome final events app]. apply res_eta.
Qed.

Lemma call_then_ret h n id args s :
  (call_value h n (VFun (FHost id)) args;; ret tt) s =
  mkRes (match fn_outcome h id args s with
         | inl e => inl e
         | inr _ => inr tt
         end) s [EvCall id args].
Proof.
  rewrite bind_unfold, call_value_host. cbn [outcome final events].
  by destruct (fn_outcome h id args s).
Qed.

Lemma bind_entry_points h b x l name proto s :
  bindings s !! b = Some x ->
  lib x = Some l ->
  (forall i,
      prop s l "_nbind_value" = VFun (FHost i) ->
      Binding_bind h b name proto s =
      mkRes (match fn_outcome h i [VStr name; proto] s with
             | inl e => inl e
             | inr _ => inr tt
             end) s [EvCall i [VStr name; proto]]) /\
  (forall o j,
      truthy (prop s l "_nbind_value") = false ->
      prop s l "NBind" = VObj o ->
      prop s o "bind_value" = VFun (FHost j) ->
      Binding_bind h b name proto s =
      mkRes (match fn_outcome h j [VStr name; proto] s with
             | inl e => inl e
             | inr _ => inr tt
             end) s [EvCall j [VStr name; proto]]).
Proof.
  intros Hb Hl. split.
  - intros i Hf. unfold Binding_bind.
    rewrite (bind_binding_lib b x l _ s Hb Hl), bind_get_prop, Hf.
    cbn [truthy]. apply call_then_ret.
  - intros o j Hf Hn Hg. unfold Binding_bind.
    rewrite (bind_binding_lib b x l _ s Hb Hl), bind_get_prop, Hf.
    rewrite bind_get_prop, Hn. cbn [truthy].
    rewrite bind_get_prop, Hg. apply call_then_ret.
Qed.

(** [bind] reaches exactly one entry point: the asm.js one,
    [_nbind_value], if the library has it, whatever [NBind] is; otherwise
    [NBind.bind_value].  It passes the name and the class, and raises what
    the entry point raises. *)
Theorem bind_dispatch h b x l name proto s :
  bindings s !! b = Some x ->
  lib x = Some l ->
  (forall i,
      prop s l "_nbind_value" = VFun (FHost i) ->
      Binding_bind h b name proto s =
      mkRes (match fn_outcome h i [VStr name; proto] s with
             | inl e => inl e
             | inr _ => inr tt
             end) s [EvCall i [VStr name; proto]]) /\
  (forall o j,
      truthy (prop s l "_nbind_value") = false ->
      prop s l "NBind" = VObj o ->
      prop s o "bind_value" = VFun (FHost j) ->
      Binding_bind h b name proto s =
      mkRes (match fn_outcome h j [VStr name; proto] s with
             | inl e => inl e
             | inr _ => inr tt
             end) s [EvCall j [VStr name; proto]]).
Proof. exact (bind_entry_points h b x l name proto s). Qed.

(** [bind] on a library with neither entry point does nothing: no call,
    no exception, no write. *)
Theorem bind_without_entry_point h b x l name proto s :
  bindings s !! b = Some x ->
  lib x = Some l ->
  truthy (prop s l "_nbind_value") = false ->
  truthy (prop s l "NBind") = false ->
  Binding_bind h b name proto s = mkRes (inr tt) s [].
Proof.
  intros Hb Hl Hf Hn. unfold Binding_bind.
  rewrite (bind_binding_lib b x l _ s Hb Hl), bind_get_prop, Hf.
  by rewrite bind_get_prop, Hn.
Qed.

(** ** [init] below a directory *)

(** When the first loop finds nothing and the directory search hits
    [spec] at the resolved file [p], [init] is the probes followed by the
    branch of that kind, whatever the callback does. *)
Lemma init_by_search h basePath preset cb s probed spec p :
  fast_tries h (root_of h basePath) registry = [] \/
    require_resolve h (root_of h basePath) = None ->
  scan h (candidates h (root_of h basePath) registry) = (probed, Some (spec, p)) ->
  init h basePath preset cb s =
  after (map EvResolve (fast_tries h (root_of h basePath) registry ++ probed))
        (match type spec with
         | node => initNode h (new_loc s) (to_callback cb)
         | emcc => initAsm h (new_loc s) (to_callback cb)
         end (prepared (new_loc s) (set_path spec p) preset (with_binding s)))
        (new_loc s).
Proof.
  intros Hfast Hscan. rewrite init_unfold. unfold find.
  rewrite (findCompiledModule_scan _ _ _ _ _ Hfast), Hscan.
  rewrite init_found_located. cbn [set_path type].
  unfold after. cbn [outcome final events app].
  by destruct (type spec);
    match goal with |- context [outcome ?r] => destruct r as [[?|?] ? ?] end.
Qed.

(** When the binary is located by the directory search (the first loop
    finds nothing: the root has no registry extension, or does not
    resolve), an exception of the loader leaves [init] as it is, on both
    branches: there [require] runs outside any [try].  The callback is not
    invoked, and the last thing [init] did is the [require].  A root that
    is the binary itself is the case of C5. *)
Theorem loader_exception_propagates h basePath preset cb s probed spec p e :
  fast_tries h (root_of h basePath) registry = [] \/
    require_resolve h (root_of h basePath) = None ->
  scan h (candidates h (root_of h basePath) registry) = (probed, Some (spec, p)) ->
  require_load h p = LoadRaises e ->
  let r := init h basePath preset cb s in
  outcome r = inl e /\
  events r =
    map EvResolve (fast_tries h (root_of h basePath) registry ++ probed) ++
    [EvRequire p] /\
  filter (fun ev => is_report ev = true) (events r) = [].
Proof.
  intros Hfast Hscan Hload r.
  assert (Hr : outcome r = inl e /\
               events r =
                 map EvResolve (fast_tries h (root_of h basePath) registry ++ probed) ++
                 [EvRequire p]).
  { subst r. rewrite (init_by_search h basePath preset cb s probed spec p Hfast Hscan).
    destruct (type spec).
    - rewrite (initNode_load_raises h (new_loc s)
                 (mkBinding (Some (set_path spec p)) (Some (exports_loc preset s))) p e);
        [done | apply (prepared_binding (new_loc s) _ preset (with_binding s))
        | done | done].
    - rewrite (initAsm_unfold h (new_loc s) _ (exports_loc preset s) _ _
                 (prepared_binding _ _ _ _)) by done.
      rewrite (require_binary_raises h (new_loc s)
                 (mkBinding (Some (set_path spec p)) (Some (exports_loc preset s))) p e);
        [done | apply (prepared_binding (new_loc s) _ preset (with_binding s))
        | done | done]. }
  destruct Hr as [Ho He]. split; [done|]. split; [done|].
  rewrite He, filter_app, filter_report_resolve. cbn [app].
  by rewrite filter_cons, decide_False by done.
Qed.

(** Without a callback, and when the root itself is not a file that
    resolves with a registry extension, [init] raises what it would have
    reported: the locator's error when no candidate of the directory
    search resolves, and the load error when the addon found by the
    directory search loads to something that is not an object.  A root
    that is the addon itself is the case of C5: there the load error is
    caught by the first loop. *)
Theorem init_without_callback_raises h basePath preset s :
  let root := root_of h basePath in
  (known_ext (extname h root) = true -> require_resolve h root = None) ->
  (Forall (fun c => require_resolve h c.2 = None) (candidates h root registry) ->
   outcome (init h basePath preset None s) =
   inl (locate_error
          ((if known_ext (extname h root) then [root] else []) ++
           map snd (candidates h root registry)))) /\
  (forall probed spec p v,
      scan h (candidates h root registry) = (probed, Some (spec, p)) ->
      type spec = node ->
      require_load h p = LoadValue [] v ->
      negb (truthy v) || negb (String.eqb (typeof v) "object") = true ->
      outcome (init h basePath preset None s) = inl load_error).
Proof.
  intros root Hroot. split.
  - intros Hall.
    by rewrite (init_exhausted h basePath preset None s _
                  (exhausts_by_search h basePath Hroot Hall)).
  - intros probed spec p v Hscan Hty Hload Hv.
    assert (Hfast : fast_tries h root registry = [] \/ require_resolve h root = None).
    { rewrite fast_tries_registry.
      destruct (known_ext (extname h root)); [right; by apply Hroot | by left]. }
    rewrite (init_by_search h basePath preset None s probed spec p Hfast Hscan), Hty.
    rewrite (initNode_rejected h (new_loc s)
               (mkBinding (Some (set_path spec p)) (Some (exports_loc preset s))) p v);
      [done | apply (prepared_binding (new_loc s) _ preset (with_binding s))
      | done | done | done].
Qed.

(** When nothing is located and the callback returns, [init] still returns
    a binding: a new one with neither field set, in a store whose objects
    are untouched.  [bind] on that binding raises. *)
Theorem failed_init_binding h basePath preset cb s attempted :
  exhausts h basePath attempted ->
  quiet h cb ->
  let r := init h basePath preset cb s in
  outcome r = inr (new_loc s) /\
  bindings (final r) !! new_loc s = Some (mkBinding None None) /\
  objects (final r) = objects s /\
  currentBinding (final r) = currentBinding s /\
  forall name proto,
    exists e, outcome (Binding_bind h (new_loc s) name proto (final r)) = inl e.
Proof.
  intros Hex Hq r. subst r.
  rewrite (init_exhausted h basePath preset cb s attempted Hex), Hq.
  cbn [outcome final]. split; [done|].
  assert (Hb : bindings (with_binding s) !! new_loc s = Some (mkBinding None None)).
  { unfold with_binding; cbn [bindings]. by rewrite lookup_insert_eq. }
  split; [done|]. split; [done|]. split; [done|].
  intros name proto. eexists. unfold Binding_bind, binding_lib, read_binding.
  rewrite !bind_unfold, Hb. reflexivity.
Qed.

(** ** The current binding *)

Lemma getLib_current b x s :
  currentBinding s = Some b ->
  bindings s !! b = Some x ->
  getLib s = mkRes (inr (lib x)) s [].
Proof.
  intros Hc Hb. unfold getLib, bind, get_store, read_binding.
  cbn [outcome final events]. rewrite Hc, Hb. reflexivity.
Qed.

(** [getLib] raises while no bundle load has been started.  Once [init]
    has started one, [getLib] returns the exports object of that binding,
    whatever binding was current before; a native initialization leaves
    the current binding as it was. *)
Theorem getLib_follows_bundle_init h basePath preset cb s found p :
  locates h basePath found ->
  path found = Some p ->
  let r := init h basePath preset cb s in
  (currentBinding s = None -> exists e, outcome (getLib s) = inl e) /\
  (forall v,
      type found = emcc ->
      require_load h p = LoadValue [] v ->
      getLib (final r) = mkRes (inr (Some (exports_loc preset s))) (final r) []) /\
  (forall src,
      type found = node ->
      require_load h p = LoadValue [] (VObj src) ->
      returns_on_success h cb ->
      currentBinding (final r) = currentBinding s).
Proof.
  intros Hloc Hpath r. split; [|split].
  - intros Hc. eexists. unfold getLib, bind, get_store.
    cbn [outcome final events]. by rewrite Hc.
  - intros v Hty Hload. subst r.
    destruct (init_asm_loading h basePath preset cb s found p v
                Hloc Hty Hpath Hload) as [probes ->].
    cbn [final].
    destruct (asm_loading_binding found preset cb s) as [Hb Hc].
    by rewrite (getLib_current _ _ _ Hc Hb).
  - intros src Hty Hload Hq. subst r.
    destruct (init_native_success h basePath preset cb s found p src
                Hloc Hty Hpath Hload (Hq _ _)) as [probes ->].
    cbn [final]. unfold native_ready.
    by destruct (copy_props_bindings src (exports_loc preset s)
                   (keys_of (prepared (new_loc s) found preset (with_binding s)) src)
                   (prepared (new_loc s) found preset (with_binding s))) as [_ ->].
Qed.

(** ** What [init] leaves alone *)

(** A successful native initialization writes to the exports object only:
    every other object of the store keeps its entries, the loaded module's
    object too (also when it is the exports object), and every binding
    that existed is as it was. *)
Theorem native_init_frame h basePath preset cb s found p src :
  locates h basePath found ->
  type found = node ->
  path found = Some p ->
  require_load h p = LoadValue [] (VObj src) ->
  returns_on_success h cb ->
  let r := init h basePath preset cb s in
  (forall l, l <> exports_loc preset s -> obj_of (final r) l = obj_of s l) /\
  obj_of (final r) src = obj_of s src /\
  (forall b, b <> new_loc s -> bindings (final r) !! b = bindings s !! b).
Proof.
  intros Hloc Hty Hpath Hload Hq r. subst r.
  destruct (init_native_success h basePath preset cb s found p src
              Hloc Hty Hpath Hload (Hq _ _)) as [probes ->].
  cbn [final]. split; [|split].
  - intros l Hl. by apply native_ready_others.
  - apply native_ready_source.
  - intros b Hb. unfold native_ready.
    destruct (copy_props_bindings src (exports_loc preset s)
                (keys_of (prepared (new_loc s) found preset (with_binding s)) src)
                (prepared (new_loc s) found preset (with_binding s))) as [-> _].
    unfold prepared, with_binding; cbn [bindings].
    by rewrite !lookup_insert_ne.
Qed.

Lemma init_asm_frame h basePath preset cb s found p v :
  locates h basePath found ->
  type found = emcc ->
  path found = Some p ->
  require_load h p = LoadValue [] v ->
  let r := init h basePath preset cb s in
  let l := exports_loc preset s in
  (forall key,
      key <> "onRuntimeInitialized" -> key <> "locateFile" ->
      obj_of (final r) l !! key = obj_of s l !! key) /\
  prop (final r) l "locateFile" =
    (if truthy (prop s l "locateFile") then prop s l "locateFile"
     else VFun (FLocateFile (new_loc s))) /\
  (forall l', l' <> l -> obj_of (final r) l' = obj_of s l') /\
  (forall b, b <> new_loc s -> bindings (final r) !! b = bindings s !! b).
Proof.
  intros Hloc Hty Hpath Hload r l. subst r.
  destruct (init_asm_loading h basePath preset cb s found p v
              Hloc Hty Hpath Hload) as [probes ->].
  cbn [final]. unfold asm_loading.
  change (exports_loc preset s) with (exports_loc preset (with_binding s)) in *.
  split; [|split; [|split]].
  - intros key H1 H2. subst l.
    rewrite asm_installed_lookup, !decide_False by done.
    by rewrite obj_of_prepared.
  - subst l. unfold prop at 1.
    rewrite asm_installed_lookup, decide_False, decide_True by done.
    cbn [default from_option id]. unfold prop. by rewrite !obj_of_prepared.
  - intros l' Hl'. subst l. unfold obj_of at 1.
    rewrite asm_installed_others by done.
    apply (obj_of_prepared (new_loc s) found preset (with_binding s) l').
  - intros b Hb.
    change (bindings (prepared (new_loc s) found preset (with_binding s)) !! b =
            bindings s !! b).
    unfold prepared, with_binding; cbn [bindings].
    by rewrite !lookup_insert_ne.
Qed.


(** ** The closures of [initAsm] *)

Lemma call_locateFile h n b x p file rest s :
  bindings s !! b = Some x ->
  binary x ≫= path = Some p ->
  call_value h n (VFun (FLocateFile b)) (VStr file :: rest) s =
  mkRes (inr (VStr (path_resolve h [dirname h p; file]))) s [].
Proof.
  intros Hb Hp.
  assert (Hc : call_value h n (VFun (FLocateFile b)) (VStr file :: rest) s =
               (y <- read_binding b;;
                match binary y ≫= path, VStr file :: rest with
                | Some q, VStr f :: _ => ret (VStr (path_resolve h [dirname h q; f]))
                | _, _ => throw (TypeError "Path must be a string")
                end) s) by (by destruct n).
  rewrite Hc. unfold read_binding, bind. rewrite Hb. cbn [outcome final events].
  by rewrite Hp.
Qed.

(** When the caller's object has no [locateFile], the one [init] installs
    for a bundle answers, for a file name, the path of that name beside
    the located bundle: [path.resolve(path.dirname(binary.path), name)].
    It reads the binding when it is called. *)
Theorem default_locateFile h basePath preset cb s found p v :
  locates h basePath found ->
  type found = emcc ->
  path found = Some p ->
  require_load h p = LoadValue [] v ->
  truthy (prop s (exports_loc preset s) "locateFile") = false ->
  let r := init h basePath preset cb s in
  forall n file rest s1,
    bindings s1 !! new_loc s = bindings (final r) !! new_loc s ->
    call_value h n (prop (final r) (exports_loc preset s) "locateFile")
               (VStr file :: rest) s1 =
    mkRes (inr (VStr (path_resolve h [dirname h p; file]))) s1 [].
Proof.
  intros Hloc Hty Hpath Hload Hlf r n file rest s1 Hb1.
  destruct (init_asm_frame h basePath preset cb s found p v
              Hloc Hty Hpath Hload) as (_ & Hl & _ & _).
  fold r in Hl. rewrite Hl, Hlf.
  subst r.
  destruct (init_asm_loading h basePath preset cb s found p v
              Hloc Hty Hpath Hload) as [probes Hinit].
  rewrite Hinit in Hb1. cbn [final] in Hb1.
  destruct (asm_loading_binding found preset cb s) as [Hb _].
  rewrite Hb in Hb1.
  apply (call_locateFile h n _ _ p file rest s1 Hb1). by cbn; rewrite Hpath.
Qed.

(** The readiness signal of the bundle, in the store [init] leaves, is a
    call of the closure [init] installed around the caller's hook. *)
Lemma runtime_ready_after_init h basePath preset cb s found p v :
  locates h basePath found ->
  type found = emcc ->
  path found = Some p ->
  require_load h p = LoadValue [] v ->
  let r := init h basePath preset cb s in
  let l := exports_loc preset s in
  runtime_ready h (final r) =
  after [] (call_value h (S (max_nesting h))
              (ready_hook (prop s l "onRuntimeInitialized") l (new_loc s)
                          (to_callback cb))
              [] (final r)) tt /\
  prop (final r) l "ccall" = prop s l "ccall".
Proof.
  intros Hloc Hty Hpath Hload r l.
  destruct (init_asm_frame h basePath preset cb s found p v
              Hloc Hty Hpath Hload) as (Hkeys & _ & _ & _).
  fold r in Hkeys. split; [|unfold prop; by rewrite Hkeys].
  subst r.
  destruct (init_asm_loading h basePath preset cb s found p v
              Hloc Hty Hpath Hload) as [probes ->].
  cbn [final].
  destruct (asm_loading_binding found preset cb s) as [Hb Hc].
  by rewrite (runtime_ready_fires h (new_loc s) _ l
                (prop s l "onRuntimeInitialized") (to_callback cb)
                _ Hc Hb eq_refl (asm_loading_hook found preset cb s)).
Qed.

(** If the exports object has no function [ccall] when the bundle signals
    readiness, the bootstrap call raises a [TypeError] inside the [try]:
    the callback is invoked once, with that error and no binding. *)
Theorem missing_ccall_reported h basePath preset cb s found p v o :
  locates h basePath found ->
  type found = emcc ->
  path found = Some p ->
  require_load h p = LoadValue [] v ->
  let r := init h basePath preset cb s in
  let l := exports_loc preset s in
  prop s l "onRuntimeInitialized" = hook_value o ->
  (forall i, o = Some i -> exists w, fn_outcome h i [] (final r) = inr w) ->
  is_function (prop s l "ccall") = false ->
  final (runtime_ready h (final r)) = final r /\
  events (runtime_ready h (final r)) =
    match o with
    | Some i => [EvCall i []]
    | None => []
    end ++
    [EvCallback (to_callback cb) (Some (TypeError "not a function")) None (final r)].
Proof.
  intros Hloc Hty Hpath Hload r l Ho Hret Hcc.
  destruct (runtime_ready_after_init h basePath preset cb s found p v
              Hloc Hty Hpath Hload) as [Hfire Hkeep].
  fold r l in Hfire, Hkeep. rewrite Hfire, call_ready_hook, Ho.
  assert (Hrh : exists w,
    (if truthy (hook_value o)
     then call_value h (max_nesting h) (hook_value o) []
     else ret VUndefined) (final r) =
    mkRes (inr w) (final r) match o with Some i => [EvCall i []] | None => [] end).
  { destruct o as [i|]; cbn [hook_value truthy].
    - destruct (Hret i eq_refl) as [w Hw]. exists w.
      by rewrite call_value_host, Hw.
    - by exists VUndefined. }
  destruct Hrh as [w ->]. cbn [outcome final events].
  rewrite Hkeep, (call_value_not_function h _ _ _ _ Hcc).
  by unfold after.
Qed.

(** If the caller's own runtime-ready hook raises, the exception leaves
    the readiness signal at once: the bootstrap function is not called
    and the callback is not invoked. *)
Theorem caller_hook_exception h basePath preset cb s found p v i e :
  locates h basePath found ->
  type found = emcc ->
  path found = Some p ->
  require_load h p = LoadValue [] v ->
  let r := init h basePath preset cb s in
  prop s (exports_loc preset s) "onRuntimeInitialized" = VFun (FHost i) ->
  fn_outcome h i [] (final r) = inl e ->
  runtime_ready h (final r) = mkRes (inl e) (final r) [EvCall i []].
Proof.
  intros Hloc Hty Hpath Hload r Ho He.
  destruct (runtime_ready_after_init h basePath preset cb s found p v
              Hloc Hty Hpath Hload) as [Hfire _].
  fold r in Hfire. rewrite Hfire, call_ready_hook, Ho. cbn [truthy].
  rewrite call_value_host, He. by unfold after.
Qed.

(** ** What the bundle does while it is loaded *)

Lemma require_binary_script h b x p script v s :
  bindings s !! b = Some x ->
  binary x ≫= path = Some p ->
  require_load h p = LoadValue script v ->
  require_binary h b s =
  mkRes (match outcome (run_script h script s) with
         | inl e => inl e
         | inr _ => inr v
         end)
        (final (run_script h script s))
        (EvRequire p :: events (run_script h script s)).
Proof.
  intros Hb Hp Hl. unfold require_binary, read_binding, bind. rewrite Hb.
  cbn [outcome final events]. rewrite Hp. unfold require, bind, emit.
  cbn [outcome final events]. rewrite Hl.
  destruct (run_script h script s) as [[e|[]] f evs];
    cbn [outcome final events ret app]; by rewrite ?app_nil_r.
Qed.

(** [init] on a bundle whose top-level code returns: the probes, the
    [require], and what that code did. *)
Lemma init_asm_script h basePath preset cb s found p script v :
  locates h basePath found ->
  type found = emcc ->
  path found = Some p ->
  require_load h p = LoadValue script v ->
  outcome (run_script h script (asm_loading found preset cb s)) = inr tt ->
  exists probes,
    init h basePath preset cb s =
    mkRes (inr (new_loc s))
          (final (run_script h script (asm_loading found preset cb s)))
          (map EvResolve probes ++
           EvRequire p :: events (run_script h script (asm_loading found preset cb s))).
Proof.
  intros [probes Hloc] Hty Hpath Hload Hrun. exists probes.
  rewrite init_unfold.
  assert (Hfound :
    init_found h (new_loc s) preset (to_callback cb) None (Some found) (with_binding s) =
    mkRes (inr tt)
          (final (run_script h script (asm_loading found preset cb s)))
          (EvRequire p :: events (run_script h script (asm_loading found preset cb s)))).
  { rewrite init_found_located, Hty.
    rewrite (initAsm_unfold h _ _ (exports_loc preset s) _ _
               (prepared_binding _ _ _ _)) by done.
    rewrite (require_binary_script h (new_loc s)
               (mkBinding (Some found) (Some (exports_loc preset s))) p script v);
      [|apply (prepared_binding (new_loc s) found preset (with_binding s))
       |by cbn; rewrite Hpath|done].
    fold (asm_loading found preset cb s). rewrite Hrun. reflexivity. }
  rewrite Hloc by (by rewrite Hfound). rewrite Hfound.
  unfold after; cbn [outcome final events app]. reflexivity.
Qed.

Lemma write_all_bindings l kvs s :
  bindings (write_all l kvs s) = bindings s /\
  currentBinding (write_all l kvs s) = currentBinding s.
Proof.
  unfold write_all. revert s. induction kvs as [|kv kvs IH]; intros s; [done|].
  cbn [foldl]. by destruct (IH (write_prop l kv.1 kv.2 s)) as [-> ->].
Qed.

Lemma run_script_defines h b x l kvs s :
  currentBinding s = Some b ->
  bindings s !! b = Some x ->
  lib x = Some l ->
  run_script h (defines kvs) s = mkRes (inr tt) (write_all l kvs s) [].
Proof.
  intros Hc Hb Hl. revert s Hc Hb.
  induction kvs as [|[k w] kvs IH]; intros s Hc Hb; [done|].
  cbn [defines map run_script fst snd].
  rewrite bind_unfold, (getLib_current b x s Hc Hb), Hl.
  cbn [outcome final events]. rewrite bind_unfold.
  cbn [outcome final events set_prop modify app].
  fold (defines kvs). rewrite IH by done. reflexivity.
Qed.

Lemma write_all_other l kvs s k :
  k ∉ kvs.*1 -> obj_of (write_all l kvs s) l !! k = obj_of s l !! k.
Proof.
  unfold write_all. revert s.
  induction kvs as [|[k0 w] kvs IH]; intros s Hk; [done|].
  cbn [foldl fst snd]. rewrite fmap_cons in Hk.
  apply not_elem_of_cons in Hk as [Hne Hk]. rewrite IH by done.
  rewrite obj_of_write_prop, decide_True by done. by rewrite lookup_insert_ne.
Qed.

Lemma write_all_lookup l kvs s k w :
  NoDup kvs.*1 -> (k, w) ∈ kvs -> obj_of (write_all l kvs s) l !! k = Some w.
Proof.
  revert s. induction kvs as [|[k0 w0] kvs IH]; intros s Hnd Hin.
  - by apply elem_of_nil in Hin.
  - rewrite fmap_cons in Hnd. apply NoDup_cons in Hnd as [Hk0 Hnd].
    change (write_all l ((k0, w0) :: kvs) s)
      with (write_all l kvs (write_prop l k0 w0 s)).
    apply elem_of_cons in Hin as [[= -> ->]|Hin].
    + rewrite write_all_other by done.
      rewrite obj_of_write_prop, decide_True by done. by rewrite lookup_insert_eq.
    + by apply IH.
Qed.

Lemma write_all_others l kvs s l' :
  l' <> l -> obj_of (write_all l kvs s) l' = obj_of s l'.
Proof.
  intros Hl. unfold write_all. revert s.
  induction kvs as [|[k0 w] kvs IH]; intros s; [done|].
  cbn [foldl fst snd]. rewrite IH, obj_of_write_prop. by rewrite decide_False.
Qed.

Lemma init_defining_bundle h basePath preset cb s found p kvs v :
  locates h basePath found ->
  type found = emcc ->
  path found = Some p ->
  require_load h p = LoadValue (defines kvs) v ->
  NoDup kvs.*1 ->
  let r := init h basePath preset cb s in
  let l := exports_loc preset s in
  outcome r = inr (new_loc s) /\
  bindings (final r) !! new_loc s = Some (mkBinding (Some found) (Some l)) /\
  (forall k w, (k, w) ∈ kvs -> obj_of (final r) l !! k = Some w) /\
  (forall l', l' <> l -> obj_of (final r) l' = obj_of s l') /\
  filter (fun ev => is_report ev = true) (events r) = [].
Proof.
  intros Hloc Hty Hpath Hload Hnd r l.
  destruct (asm_loading_binding found preset cb s) as [Hb Hc].
  pose proof (run_script_defines h (new_loc s) _ l kvs
                (asm_loading found preset cb s) Hc Hb eq_refl) as Hrun.
  destruct (init_asm_script h basePath preset cb s found p (defines kvs) v
              Hloc Hty Hpath Hload) as [probes Hinit]; [by rewrite Hrun|].
  subst r. rewrite Hinit, Hrun. cbn [outcome final events].
  split; [done|]. split.
  { by destruct (write_all_bindings l kvs (asm_loading found preset cb s)) as [-> _]. }
  split; [intros k w Hin; by apply write_all_lookup|]. split.
  - intros l' Hl'. rewrite write_all_others by done.
    unfold asm_loading, obj_of at 1. subst l.
    change (exports_loc preset s) with (exports_loc preset (with_binding s)) in *.
    rewrite asm_installed_others by done.
    apply (obj_of_prepared (new_loc s) found preset (with_binding s) l').
  - rewrite filter_app, filter_report_resolve. cbn [app].
    by rewrite filter_cons, decide_False by done.
Qed.

(** The binding is published as current before the bundle is loaded, so
    what the bundle's top-level code defines on the object it gets from
    [getLib()] is defined on the exports of the binding being
    initialized, and on no other object. *)
Theorem bundle_defines_exports h basePath preset cb s found p kvs v :
  locates h basePath found ->
  type found = emcc ->
  path found = Some p ->
  require_load h p = LoadValue (defines kvs) v ->
  NoDup kvs.*1 ->
  let r := init h basePath preset cb s in
  let l := exports_loc preset s in
  outcome r = inr (new_loc s) /\
  bindings (final r) !! new_loc s = Some (mkBinding (Some found) (Some l)) /\
  (forall k w, (k, w) ∈ kvs -> obj_of (final r) l !! k = Some w) /\
  (forall l', l' <> l -> obj_of (final r) l' = obj_of s l') /\
  filter (fun ev => is_report ev = true) (events r) = [].
Proof. exact (init_defining_bundle h basePath preset cb s found p kvs v). Qed.



(** ** What the locator returns *)

Lemma returns_only_bind {A B} (P : A -> Prop) (Q : B -> Prop)
    (m : M A) (k : A -> M B) s :
  returns_only P (m s) ->
  (forall a s', P a -> returns_only Q (k a s')) ->
  returns_only Q (bind m k s).
Proof.
  unfold returns_only. rewrite bind_unfold.
  destruct (m s) as [[e|a] f evs]; cbn [outcome final events]; [done|].
  intros Ha Hk. apply (Hk a f Ha).
Qed.

Lemma same_entry_set_path spec q : same_entry spec (set_path spec q).
Proof. by repeat split. Qed.

Lemma scan_hit_candidate h cands probed spec p :
  scan h cands = (probed, Some (spec, p)) ->
  exists rp, (spec, rp) ∈ cands /\ require_resolve h rp = Some p.
Proof.
  revert probed. induction cands as [|[sp rp] cands IH]; intros probed; [done|].
  cbn [scan]. destruct (require_resolve h rp) as [q|] eqn:Hr.
  - intros [= <- <- <-]. exists rp. split; [by left|done].
  - destruct (scan h cands) as [pr hit]. intros [= <- ->].
    destruct (IH pr eq_refl) as (rp' & Hin & Hres). exists rp'.
    split; [by right|done].
Qed.

Lemma elem_of_candidates h basePath specList spec rp :
  (spec, rp) ∈ candidates h basePath specList ->
  spec ∈ specList /\
  exists parts, parts ∈ makeModulePathList h basePath (name spec) /\
                rp = path_resolve h parts.
Proof.
  unfold candidates. rewrite list_elem_of_In, in_flat_map.
  intros (sp & Hsp & Hin). apply in_map_iff in Hin as (parts & [= <- <-] & Hparts).
  split; [by apply list_elem_of_In|]. exists parts.
  split; [by apply list_elem_of_In|done].
Qed.

(** The first loop returns a spec of the list whose extension is [e], with
    [path] set to what [require.resolve] answered for [basePath]; and the
    spec list it leaves behind has the entries of the one it was given. *)
Lemma fast_path_returns h basePath e specList cb tried s :
  returns_only
    (fun x =>
       match x with
       | inl spec' =>
           exists r q, r ∈ specList /\ e = ext r /\
                       require_resolve h basePath = Some q /\ spec' = set_path r q
       | inr (_, specs') => Forall2 same_entry specList specs'
       end)
    (fast_path h basePath e specList cb tried s).
Proof.
  revert tried s. induction specList as [|spec rest IH]; intros tried s.
  - cbn. constructor.
  - cbn [fast_path].
    assert (Hrest : forall spec0 tried0 s0,
      same_entry spec spec0 ->
      returns_only
        (fun x =>
           match x with
           | inl spec' =>
               exists r q, r ∈ spec :: rest /\ e = ext r /\
                           require_resolve h basePath = Some q /\ spec' = set_path r q
           | inr (_, specs') => Forall2 same_entry (spec :: rest) specs'
           end)
        ((r' <- fast_path h basePath e rest cb tried0;;
          match r' with
          | inl s1 => ret (inl s1)
          | inr (l, specs) => ret (inr (l, spec0 :: specs))
          end) s0)).
    { intros spec0 tried0 s0 Hsame.
      eapply returns_only_bind; [apply IH|].
      intros [spec'|[l specs]] s' Hx; cbn.
      - destruct Hx as (r & q & Hin & He & Hq & ->). exists r, q.
        split; [by right|done].
      - by constructor. }
    destruct (String.eqb e (ext spec)) eqn:Heq.
    + apply String.eqb_eq in Heq.
      eapply (returns_only_bind
                (fun r => match r with
                          | inl _ => True
                          | inr (spec', _) =>
                              exists q, require_resolve h basePath = Some q /\
                                        spec' = set_path spec q
                          end)).
      * unfold returns_only, try_, resolve. cbn [outcome].
        rewrite !bind_unfold. cbn [emit outcome final events].
        destruct (require_resolve h basePath) as [q|]; cbn [ret throw outcome final events];
          [|done].
        rewrite bind_unfold. cbn [outcome final events ret]. by exists q.
      * intros [err|[spec' [err|[]]]] s' Hx.
        -- apply Hrest. by repeat split.
        -- destruct Hx as (q & Hq & ->). apply Hrest, same_entry_set_path.
        -- destruct Hx as (q & Hq & ->). cbn. exists spec, q.
           split; [by left|done].
    + apply Hrest. by repeat split.
Qed.

(** Whatever the callback does, what [findCompiledModule] returns is
    either a spec of the list it was given, with [path] set to an answer
    of [require.resolve] for the base path itself (and then the spec has
    the extension of the base path) or for one of the spec's candidate
    paths; or it is null, and then the callback was handed the locator's
    error and returned. *)
Lemma findCompiledModule_returns h basePath specList cb s :
  returns_only
    (fun o =>
       match o with
       | Some spec' =>
           exists r q p,
             r ∈ specList /\ same_entry r spec' /\ path spec' = Some p /\
             require_resolve h q = Some p /\
             (q = basePath /\ ext r = extname h basePath \/
              exists parts, parts ∈ makeModulePathList h basePath (name r) /\
                            q = path_resolve h parts)
       | None =>
           exists tried s',
             outcome (cb (Some (locate_error tried)) None s') = inr tt
       end)
    (findCompiledModule h basePath specList cb s).
Proof.
  unfold findCompiledModule.
  eapply returns_only_bind; [apply fast_path_returns|].
  intros [spec'|[tried specs']] s' Hx.
  - destruct Hx as (r & q & Hin & He & Hq & ->). cbn.
    exists r, basePath, q. split; [done|]. split; [apply same_entry_set_path|].
    split; [done|]. split; [done|]. by left.
  - unfold returns_only. rewrite bind_unfold, dir_search_scan.
    destruct (scan h (candidates h basePath specs')) as [probed [[sp p]|]] eqn:Hscan.
    + unfold after. cbn [outcome final events].
      destruct (outcome (cb None (Some (set_path sp p)) s')); [done|].
      cbn [ret outcome].
      destruct (scan_hit_candidate h _ _ _ _ Hscan) as (rp & Hin & Hres).
      apply elem_of_candidates in Hin as (Hsp & parts & Hparts & ->).
      destruct (proj1 (list_elem_of_lookup _ _) Hsp) as [i Hi].
      destruct (Forall2_lookup_r _ _ _ _ _ Hx Hi) as (r & Hr & Hsame).
      exists r, (path_resolve h parts), p.
      split; [by eapply list_elem_of_lookup_2|].
      split; [by destruct Hsame as (? & ? & ?)|].
      split; [done|]. split; [done|]. right.
      destruct Hsame as (_ & _ & Hname). exists parts. by rewrite <- Hname.
    + cbn [outcome final events]. rewrite bind_unfold.
      destruct (cb (Some (locate_error (tried ++ probed))) None s')
        as [[err|[]] f evs] eqn:Hcb; cbn [outcome final events ret]; [done|].
      exists (tried ++ probed), s'. by rewrite Hcb.
Qed.

(** The spec [find] returns is an entry of the registry whose [path] is
    an answer of [require.resolve]: for the root itself, if the entry has
    the root's extension, or for one of the entry's candidate paths below
    the root.  This holds for every callback, also one that raises. *)
Theorem found_spec_is_resolved h basePath cb s spec :
  outcome (find h basePath cb s) = inr (Some spec) ->
  exists r q p,
    r ∈ registry /\ same_entry r spec /\ path spec = Some p /\
    require_resolve h q = Some p /\
    (q = root_of h basePath /\ ext r = extname h (root_of h basePath) \/
     exists parts,
       parts ∈ makeModulePathList h (root_of h basePath) (name r) /\
       q = path_resolve h parts).
Proof.
  intros Hout.
  pose proof (findCompiledModule_returns h (root_of h basePath) registry cb s) as Hr.
  unfold find in Hout. unfold returns_only in Hr. by rewrite Hout in Hr.
Qed.

Lemma found_spec_is_resolved_witness :
  exists p, require_resolve host_release_only
              (path_resolve host_release_only ["/proj"; "build"; "Release"; "nbind.node"]) =
            Some p /\
            path (set_path node_spec "/proj/build/Release/nbind.node") = Some p.
Proof.
  destruct (found_spec_is_resolved host_release_only (Some "/proj") find_rethrow
              empty_store (set_path node_spec "/proj/build/Release/nbind.node")
              eq_refl) as (r & q & p & _ & _ & Hp & _ & _).
  exists p. split; [|exact Hp].
  cbn in Hp. injection Hp as <-. reflexivity.
Defined.

Lemma scan_none h cands probed :
  scan h cands = (probed, None) ->
  probed = map snd cands /\
  Forall (fun c => require_resolve h c.2 = None) cands.
Proof.
  revert probed. induction cands as [|[sp rp] cands IH]; intros probed.
  - by intros [= <-].
  - cbn [scan]. destruct (require_resolve h rp) as [q|] eqn:Hr; [done|].
    destruct (scan h cands) as [pr hit]. intros [= <- ->].
    destruct (IH pr eq_refl) as [-> Hall]. split; [done|]. by constructor.
Qed.

(** The candidate paths depend on the names of the entries only. *)
Lemma candidates_same_entry h basePath specs specs' :
  Forall2 same_entry specs specs' ->
  map snd (candidates h basePath specs') = map snd (candidates h basePath specs).
Proof.
  induction 1 as [|r r' specs specs' (_ & _ & Hname) _ IH]; [done|].
  unfold candidates in *. cbn [flat_map]. rewrite !map_app, IH.
  by rewrite !map_map, Hname.
Qed.

(** The first loop adds nothing but the base path to the attempted paths. *)
Lemma fast_path_tried h basePath e specList cb tried s :
  returns_only
    (fun x =>
       match x with
       | inl _ => True
       | inr (l, _) => exists k, l = tried ++ replicate k basePath
       end)
    (fast_path h basePath e specList cb tried s).
Proof.
  revert tried s. induction specList as [|spec rest IH]; intros tried s.
  - cbn. exists 0. by rewrite app_nil_r.
  - cbn [fast_path].
    assert (Hrest : forall spec0 tried0 s0,
      (exists k0, tried0 = tried ++ replicate k0 basePath) ->
      returns_only
        (fun x =>
           match x with
           | inl _ => True
           | inr (l, _) => exists k, l = tried ++ replicate k basePath
           end)
        ((r' <- fast_path h basePath e rest cb tried0;;
          match r' with
          | inl s1 => ret (inl s1)
          | inr (l, specs) => ret (inr (l, spec0 :: specs))
          end) s0)).
    { intros spec0 tried0 s0 [k0 ->].
      eapply returns_only_bind; [apply IH|].
      intros [spec'|[l specs]] s' Hx; cbn; [done|].
      destruct Hx as [k ->]. exists (k0 + k).
      by rewrite replicate_add, app_assoc. }
    assert (Hone : exists k0, tried ++ [basePath] = tried ++ replicate k0 basePath)
      by (by exists 1).
    assert (Hzero : exists k0, tried = tried ++ replicate k0 basePath)
      by (exists 0; by rewrite app_nil_r).
    destruct (String.eqb e (ext spec)).
    + eapply (returns_only_bind (fun _ => True)).
      * unfold returns_only. by destruct (outcome _).
      * intros [err|[spec' [err|[]]]] s' _; [by apply Hrest..|done].
    + by apply Hrest.
Qed.

(** [find] returns null only at the end of a failed search: no candidate
    of the directory search resolves, all of them were probed, and the
    last thing [find] did was to hand the callback the locator's error,
    which lists them after the attempts at the root itself, and the
    callback returned.  With the default callback, which raises every
    error, [find] never returns null: it returns a spec or raises. *)
Theorem find_null_only_after_report h basePath cb s :
  let root := root_of h basePath in
  let below := map snd (candidates h root registry) in
  (outcome (find h basePath cb s) = inr None ->
   Forall (fun q => require_resolve h q = None) below /\
   exists k s' evs,
     let tried := replicate k root ++ below in
     find h basePath cb s =
       after (evs ++ map EvResolve below)
             (cb (Some (locate_error tried)) None s') None /\
     outcome (cb (Some (locate_error tried)) None s') = inr tt) /\
  outcome (find h basePath find_rethrow s) <> inr None.
Proof.
  intros root below.
  assert (Hgen : forall cb0,
    outcome (find h basePath cb0 s) = inr None ->
    Forall (fun q => require_resolve h q = None) below /\
    exists k s' evs,
      find h basePath cb0 s =
        after (evs ++ map EvResolve below)
              (cb0 (Some (locate_error (replicate k root ++ below))) None s') None /\
      outcome (cb0 (Some (locate_error (replicate k root ++ below))) None s') = inr tt).
  { intros cb0 Hout. unfold find in *. fold root in Hout |- *.
    unfold findCompiledModule in *.
    pose proof (fast_path_returns h root (extname h root) registry cb0 [] s) as Hsame.
    pose proof (fast_path_tried h root (extname h root) registry cb0 [] s) as Htried.
    rewrite bind_unfold in Hout |- *. unfold returns_only in Hsame, Htried.
    destruct (fast_path h root (extname h root) registry cb0 [] s)
      as [[e|[sp|[tried' specs']]] s1 ev1]; cbn [outcome final events] in *;
      try discriminate.
    destruct Htried as [k ->]. cbn [app] in *.
    rewrite bind_unfold, dir_search_scan in Hout |- *.
    destruct (scan h (candidates h root specs')) as [probed [[sp p]|]] eqn:Hscan.
    - unfold after in Hout. cbn [outcome final events] in Hout.
      destruct (outcome (cb0 None (Some (set_path sp p)) s1)); discriminate.
    - apply scan_none in Hscan as [-> Hall].
      rewrite (candidates_same_entry h root registry specs' Hsame) in *.
      fold below in Hout |- *.
      cbn [outcome final events] in *. rewrite bind_unfold in Hout |- *.
      split.
      { unfold below.
        rewrite <- (candidates_same_entry h root registry specs' Hsame).
        apply Forall_fmap. exact Hall. }
      exists k, s1, ev1.
      destruct (cb0 (Some (locate_error (replicate k root ++ below))) None s1)
        as [[err|[]] f evs]; cbn [outcome final events ret] in *; [discriminate|].
      split; [|done]. unfold after. cbn [outcome final events].
      by rewrite app_nil_r, !app_assoc. }
  split; [apply Hgen|].
  intros Hout. destruct (Hgen _ Hout) as (_ & k & s' & evs & _ & Hcb).
  discriminate Hcb.
Qed.

Lemma find_null_only_after_report_witness :
  outcome (find host_nothing (Some "/proj") accept_all empty_store) = inr None /\
  Forall (fun q => require_resolve host_nothing q = None)
         (map snd (candidates host_nothing "/proj" registry)).
Proof.
  split; [reflexivity|].
  destruct (find_null_only_after_report host_nothing (Some "/proj")
              accept_all empty_store) as [Hnull _].
  apply Hnull. reflexivity.
Defined.

Lemma first_resolvable h (cands : list (ModuleSpec * string)) c p0 :
  c ∈ cands ->
  require_resolve h c.2 = Some p0 ->
  exists pre c' post p,
    cands = pre ++ c' :: post /\
    Forall (fun x => require_resolve h x.2 = None) pre /\
    require_resolve h c'.2 = Some p.
Proof.
  induction cands as [|x cands IH]; intros Hin Hres; [by apply elem_of_nil in Hin|].
  destruct (require_resolve h x.2) as [q|] eqn:Hx.
  - by exists [], x, cands, q.
  - apply elem_of_cons in Hin as [->|Hin]; [congruence|].
    destruct (IH Hin Hres) as (pre & c' & post & p & -> & Hpre & Hc).
    exists (x :: pre), c', post, p. split; [done|]. split; [by constructor|done].
Qed.

(** The native addon wins over the bundle wherever the two are: if any
    candidate path of the addon resolves (and the first loop finds
    nothing), [find] hands the callback the addon entry and returns it,
    and no candidate path of the bundle is probed. *)
Theorem addon_preferred h basePath cb s parts p0 :
  let root := root_of h basePath in
  fast_tries h root registry = [] \/ require_resolve h root = None ->
  parts ∈ makeModulePathList h root "nbind.node" ->
  require_resolve h (path_resolve h parts) = Some p0 ->
  exists probed p,
    probed `prefix_of` map (path_resolve h) (makeModulePathList h root "nbind.node") /\
    find h basePath cb s =
    after (map EvResolve (fast_tries h root registry ++ probed))
          (cb None (Some (set_path node_spec p)) s)
          (Some (set_path node_spec p)).
Proof.
  intros root Hfast Hparts Hres.
  set (cn := map (fun ps => (node_spec, path_resolve h ps))
                 (makeModulePathList h root "nbind.node")).
  set (cj := map (fun ps => (emcc_spec, path_resolve h ps))
                 (makeModulePathList h root "nbind.js")).
  assert (Hc : candidates h root registry = cn ++ cj) by reflexivity.
  assert (Hin : (node_spec, path_resolve h parts) ∈ cn).
  { unfold cn. apply list_elem_of_fmap. by exists parts. }
  destruct (first_resolvable h cn _ p0 Hin Hres)
    as (pre & [sp rp] & post & p & Hcn & Hpre & Hp).
  assert (Hsp : sp = node_spec).
  { assert (Hm : (sp, rp) ∈ cn) by (rewrite Hcn; apply elem_of_app; right; by left).
    unfold cn in Hm. apply list_elem_of_fmap in Hm as (ps & [= -> _] & _). done. }
  subst sp. exists (map snd pre ++ [rp]), p. split.
  - exists (map snd post).
    assert (Hm : map snd cn = map (path_resolve h) (makeModulePathList h root "nbind.node")).
    { unfold cn. rewrite map_map. reflexivity. }
    rewrite <- Hm, Hcn, map_app. cbn [map snd]. by rewrite <- app_assoc.
  - unfold find. fold root.
    rewrite (findCompiledModule_scan _ _ _ _ _ Hfast), Hc, Hcn, <- app_assoc.
    cbn [app]. by rewrite (scan_first_hit h pre node_spec rp p (post ++ cj) Hpre Hp).
Qed.

(** An exception of the callback in the directory search is not caught:
    it leaves [find] at once, after the probes made so far; no later
    candidate is probed and the locator's error is not reported. *)
Theorem search_callback_exception h basePath cb s probed spec p e :
  let root := root_of h basePath in
  fast_tries h root registry = [] \/ require_resolve h root = None ->
  scan h (candidates h root registry) = (probed, Some (spec, p)) ->
  outcome (cb None (Some (set_path spec p)) s) = inl e ->
  find h basePath cb s =
  mkRes (inl e) (final (cb None (Some (set_path spec p)) s))
        (map EvResolve (fast_tries h root registry ++ probed) ++
         events (cb None (Some (set_path spec p)) s)).
Proof.
  intros root Hfast Hscan Hcb. unfold find. fold root.
  rewrite (findCompiledModule_scan _ _ _ _ _ Hfast), Hscan.
  unfold after. by rewrite Hcb.
Qed.

(** ** [init], then [bind] *)

(** After a successful initialization [bind] reaches the loaded library:
    for a native addon whose exports hold [NBind] (and no
    [_nbind_value], in the module or in the preset), it calls the
    module's [NBind.bind_value]; for a bundle that defined
    [_nbind_value] while it was loaded, it calls that. *)
Theorem bind_reaches_loaded_library h basePath preset cb s found p name proto :
  locates h basePath found ->
  path found = Some p ->
  let r := init h basePath preset cb s in
  let l := exports_loc preset s in
  (forall src o j,
      type found = node ->
      require_load h p = LoadValue [] (VObj src) ->
      returns_on_success h cb ->
      obj_of s src !! "NBind" = Some (VObj o) ->
      obj_of s src !! "_nbind_value" = None ->
      truthy (prop s l "_nbind_value") = false ->
      o <> l ->
      prop s o "bind_value" = VFun (FHost j) ->
      Binding_bind h (new_loc s) name proto (final r) =
      mkRes (match fn_outcome h j [VStr name; proto] (final r) with
             | inl e => inl e
             | inr _ => inr tt
             end) (final r) [EvCall j [VStr name; proto]]) /\
  (forall kvs v i,
      type found = emcc ->
      require_load h p = LoadValue (defines kvs) v ->
      NoDup kvs.*1 ->
      ("_nbind_value", VFun (FHost i)) ∈ kvs ->
      Binding_bind h (new_loc s) name proto (final r) =
      mkRes (match fn_outcome h i [VStr name; proto] (final r) with
             | inl e => inl e
             | inr _ => inr tt
             end) (final r) [EvCall i [VStr name; proto]]).
Proof.
  intros Hloc Hpath r l. split.
  - intros src o j Hty Hload Hq Hnb Hnv Hpre Hol Hbv.
    destruct (init_native_success h basePath preset cb s found p src
                Hloc Hty Hpath Hload (Hq _ _)) as [probes Hinit].
    subst r. rewrite Hinit. cbn [final].
    pose proof (native_ready_binding found preset src s) as Hb.
    pose proof (native_ready_exports found preset src s) as Hex. fold l in Hex.
    destruct (bind_entry_points h (new_loc s) _ l name proto
                (native_ready found preset src s) Hb eq_refl) as [_ Hnbind].
    apply (Hnbind o j).
    + unfold prop. rewrite Hex, lookup_union, Hnv.
      unfold prop in Hpre. by destruct (obj_of s l !! "_nbind_value").
    + unfold prop. rewrite Hex, lookup_union, Hnb.
      by destruct (obj_of s l !! "NBind").
    + unfold prop. by rewrite native_ready_others.
  - intros kvs v i Hty Hload Hnd Hin.
    destruct (init_defining_bundle h basePath preset cb s found p kvs v
                Hloc Hty Hpath Hload Hnd) as (_ & Hb & Hk & _ & _).
    fold r l in Hb, Hk.
    destruct (bind_entry_points h (new_loc s) _ l name proto (final r) Hb eq_refl)
      as [Hasm _].
    apply Hasm. unfold prop. by rewrite (Hk _ _ Hin).
Qed.

(** ** One options object, two bundles *)


(** ** The further properties on the fixtures *)

Lemma bundle_fixture_locates load fns :
  locates (fixture_host [bundle_path] load fns cbs_ok) (Some "/proj") found_bundle.
Proof.
  apply (locates_by_search (fixture_host [bundle_path] load fns cbs_ok) (Some "/proj")
           (map snd (take 11 (candidates host_bundle "/proj" registry)))
           emcc_spec bundle_path); [left; reflexivity | reflexivity].
Defined.

Lemma addon_fixture_locates load :
  locates (fixture_host [release_addon] load fns_ok cbs_ok) (Some "/proj") found_addon.
Proof.
  apply (locates_by_search (fixture_host [release_addon] load fns_ok cbs_ok)
           (Some "/proj") probes_to_release node_spec release_addon);
    [left; reflexivity | reflexivity].
Defined.

(** [bind] on the asm.js library calls [_nbind_value] (host function 8)
    although [NBind] is there too; on the native library it calls
    [NBind.bind_value] (host function 9). *)
Lemma bind_dispatch_witness :
  events (Binding_bind host_nothing 1%positive "Point" (VFun (FHost 40)) store_bound) =
    [EvCall 8 [VStr "Point"; VFun (FHost 40)]] /\
  events (Binding_bind host_nothing 2%positive "Point" (VFun (FHost 40)) store_bound) =
    [EvCall 9 [VStr "Point"; VFun (FHost 40)]].
Proof.
  split.
  - destruct (bind_dispatch host_nothing 1%positive _ 21%positive "Point"
                (VFun (FHost 40)) store_bound eq_refl eq_refl) as [Hasm _].
    by rewrite (Hasm 8 eq_refl).
  - destruct (bind_dispatch host_nothing 2%positive _ 23%positive "Point"
                (VFun (FHost 40)) store_bound eq_refl eq_refl) as [_ Hnative].
    by rewrite (Hnative 22%positive 9 eq_refl eq_refl eq_refl).
Defined.

Lemma bind_without_entry_point_witness :
  Binding_bind host_nothing 3%positive "Point" (VFun (FHost 40)) store_bound =
  mkRes (inr tt) store_bound [].
Proof.
  apply (bind_without_entry_point host_nothing 3%positive _ 24%positive "Point"
           (VFun (FHost 40)) store_bound eq_refl eq_refl eq_refl eq_refl).
Defined.

Lemma failed_init_binding_witness :
  let r := init host_nothing (Some "/proj") None (Some 0) empty_store in
  outcome r = inr (new_loc empty_store) /\
  bindings (final r) !! new_loc empty_store = Some (mkBinding None None).
Proof.
  destruct (failed_init_binding host_nothing (Some "/proj") None (Some 0) empty_store _
              (exhausts_by_search host_nothing (Some "/proj") (fun H => eq_refl)
                 ltac:(repeat constructor))
              (quiet_cbs_ok _ _ _ 0)) as (Hout & Hb & _).
  split; [exact Hout | exact Hb].
Defined.

Lemma getLib_follows_bundle_init_witness :
  let r := init host_bundle (Some "/proj") (Some 12%positive) (Some 0) store_with_hook in
  getLib (final r) = mkRes (inr (Some 12%positive)) (final r) [].
Proof.
  destruct (getLib_follows_bundle_init host_bundle (Some "/proj") (Some 12%positive)
              (Some 0) store_with_hook found_bundle bundle_path
              (bundle_fixture_locates _ _) eq_refl) as (_ & Hasm & _).
  apply (Hasm VUndefined eq_refl eq_refl).
Defined.

Lemma loader_exception_propagates_witness :
  let r := init host_broken_addon (Some "/proj") None (Some 0) empty_store in
  outcome r = inl (mkError ("Cannot find module '" +:+ release_addon +:+ "'") None) /\
  events r = map EvResolve probes_to_release ++ [EvRequire release_addon].
Proof.
  destruct (loader_exception_propagates host_broken_addon (Some "/proj") None (Some 0)
              empty_store probes_to_release node_spec release_addon
              (mkError ("Cannot find module '" +:+ release_addon +:+ "'") None)
              (or_introl eq_refl) eq_refl eq_refl) as (Hout & Hev & _).
  split; [exact Hout | exact Hev].
Defined.

Lemma init_without_callback_raises_witness :
  (exists attempted,
      outcome (init host_nothing (Some "/proj") None None empty_store) =
      inl (locate_error attempted) /\ length attempted = 20) /\
  outcome (init host_null_addon (Some "/proj") None None empty_store) = inl load_error.
Proof.
  split.
  - destruct (init_without_callback_raises host_nothing (Some "/proj") None empty_store
                (fun H => eq_refl)) as [Hnone _].
    eexists. split; [apply Hnone; repeat constructor | reflexivity].
  - destruct (init_without_callback_raises host_null_addon (Some "/proj") None
                empty_store (fun H => eq_refl)) as [_ Hrej].
    apply (Hrej probes_to_release node_spec release_addon VNull
             eq_refl eq_refl eq_refl eq_refl).
Defined.

Lemma native_init_frame_witness :
  let r := init host_addon (Some "/proj") (Some 12%positive) (Some 0) store_with_addon in
  obj_of (final r) 11%positive = addon_exports.
Proof.
  destruct (native_init_frame host_addon (Some "/proj") (Some 12%positive) (Some 0)
              store_with_addon found_addon release_addon 11%positive
              host_addon_locates eq_refl eq_refl eq_refl
              (quiet_returns_on_success _ _ (quiet_cbs_ok _ _ _ 0)))
    as (_ & Hsrc & _).
  exact Hsrc.
Defined.


Lemma default_locateFile_witness :
  let r := init host_bundle (Some "/proj") None (Some 0) empty_store in
  call_value host_bundle 0
    (prop (final r) (exports_loc None empty_store) "locateFile")
    [VStr "nbind.js.mem"] (final r) =
  mkRes (inr (VStr "/proj/nbind.js.mem")) (final r) [].
Proof.
  apply (default_locateFile host_bundle (Some "/proj") None (Some 0) empty_store
           found_bundle bundle_path VUndefined
           (bundle_fixture_locates _ _) eq_refl eq_refl eq_refl eq_refl).
  reflexivity.
Defined.

Lemma missing_ccall_reported_witness :
  let r := init host_bundle (Some "/proj") (Some 12%positive) (Some 0) store_with_hook in
  events (runtime_ready host_bundle (final r)) =
  [EvCall 5 [];
   EvCallback (user_callback 0) (Some (TypeError "not a function")) None (final r)].
Proof.
  destruct (missing_ccall_reported host_bundle (Some "/proj") (Some 12%positive)
              (Some 0) store_with_hook found_bundle bundle_path VUndefined (Some 5)
              (bundle_fixture_locates _ _) eq_refl eq_refl eq_refl eq_refl)
    as [_ Hev].
  - intros i [= <-]. by exists VUndefined.
  - reflexivity.
  - exact Hev.
Defined.

Lemma caller_hook_exception_witness :
  let r := init host_bundle_hook_fails (Some "/proj") (Some 12%positive) (Some 0)
             store_with_hook_ccall in
  runtime_ready host_bundle_hook_fails (final r) =
  mkRes (inl hook_error) (final r) [EvCall 5 []].
Proof.
  apply (caller_hook_exception host_bundle_hook_fails (Some "/proj") (Some 12%positive)
           (Some 0) store_with_hook_ccall found_bundle bundle_path VUndefined 5
           hook_error (bundle_fixture_locates _ _) eq_refl eq_refl eq_refl
           eq_refl eq_refl).
Defined.

Lemma bundle_defines_exports_witness :
  let r := init host_bundle_defining (Some "/proj") None (Some 0) empty_store in
  obj_of (final r) (exports_loc None empty_store) !! "ccall" = Some (VFun (FHost 3)).
Proof.
  destruct (bundle_defines_exports host_bundle_defining (Some "/proj") None (Some 0)
              empty_store found_bundle bundle_path bundle_entry_points VUndefined
              (bundle_fixture_locates _ _) eq_refl eq_refl eq_refl)
    as (_ & _ & Hk & _).
  - change (NoDup ["ccall"; "_nbind_value"]).
    apply NoDup_cons. split; [|apply NoDup_singleton].
    intros [Heq|Hin]%elem_of_cons; [discriminate Heq | by apply elem_of_nil in Hin].
  - apply Hk. by left.
Defined.


Lemma addon_preferred_witness :
  outcome (find host_both_kinds (Some "/proj") find_rethrow empty_store) =
  inr (Some found_addon).
Proof.
  destruct (addon_preferred host_both_kinds (Some "/proj") find_rethrow empty_store
              ["/proj"; "build"; "Release"; "nbind.node"] release_addon
              (or_introl eq_refl)) as (probed & p & _ & Hfind).
  - cbn. set_solver.
  - reflexivity.
  - reflexivity.
Defined.

Lemma search_callback_exception_witness :
  find host_release_only (Some "/proj") refuse_all empty_store =
  mkRes (inl boot_error) empty_store (map EvResolve probes_to_release).
Proof.
  rewrite (search_callback_exception host_release_only (Some "/proj") refuse_all
             empty_store probes_to_release node_spec release_addon boot_error
             (or_introl eq_refl) eq_refl eq_refl).
  reflexivity.
Defined.

Lemma bind_reaches_loaded_library_witness :
  let r := init host_addon (Some "/proj") None (Some 0) store_with_nbind in
  events (Binding_bind host_addon (new_loc store_with_nbind) "Point" (VFun (FHost 40))
            (final r)) =
  [EvCall 9 [VStr "Point"; VFun (FHost 40)]].
Proof.
  intros r.
  destruct (bind_reaches_loaded_library host_addon (Some "/proj") None (Some 0)
              store_with_nbind found_addon release_addon "Point" (VFun (FHost 40))
              host_addon_locates eq_refl) as [Hnative _].
  fold r in Hnative. rewrite (Hnative 11%positive 13%positive 9 eq_refl eq_refl
             (quiet_returns_on_success _ _ (quiet_cbs_ok _ _ _ 0))
             eq_refl eq_refl eq_refl ltac:(discriminate) eq_refl).
  reflexivity.
Defined.


(** ** Every report is well formed *)

Lemma shaped_bind {A B} (m : M A) (k : A -> M B) s :
  Forall shaped (events (m s)) ->
  (forall a s', Forall shaped (events (k a s'))) ->
  Forall shaped (events (bind m k s)).
Proof.
  intros Hm Hk. rewrite bind_unfold.
  destruct (m s) as [[e|a] f evs] eqn:Hms; cbn [outcome final events] in *; [done|].
  apply Forall_app. split; [done|apply Hk].
Qed.

Lemma shaped_nil {A} (r : Res A) : events r = [] -> Forall shaped (events r).
Proof. intros ->. constructor. Qed.

Lemma shaped_call_callback h cb err res s :
  (err = None <-> is_Some res) ->
  Forall shaped (events (call_callback h cb err res s)).
Proof.
  intros Hs. rewrite call_callback_unfold. cbn [events].
  constructor; [|constructor].
  destruct err as [e|], res as [b|]; cbn; try done.
  - destruct Hs as [_ Hs]. by specialize (Hs (mk_is_Some _ _ eq_refl)).
  - destruct Hs as [Hs _]. by destruct (Hs eq_refl).
Qed.

Lemma shaped_call_value h n v args s :
  Forall shaped (events (call_value h n v args s)).
Proof.
  revert v args s. induction n as [|n IH]; intros v args s.
  - destruct v as [| | | | | |[id|b|orig l b cb]]; try (apply shaped_nil; done).
    + rewrite call_value_host. by repeat constructor.
    + cbn [call_value]. unfold read_binding, bind.
      destruct (bindings s !! b) as [x|]; cbn [outcome final events]; [|constructor].
      destruct (binary x ≫= path); [|constructor].
      destruct args as [|[] args]; constructor.
  - destruct v as [| | | | | |[id|b|orig l b cb]]; try (apply shaped_nil; done).
    + rewrite call_value_host. by repeat constructor.
    + cbn [call_value]. unfold read_binding, bind.
      destruct (bindings s !! b) as [x|]; cbn [outcome final events]; [|constructor].
      destruct (binary x ≫= path); [|constructor].
      destruct args as [|[] args]; constructor.
    + change (VFun (FRuntimeInitialized orig l b cb)) with (ready_hook orig l b cb).
      rewrite call_ready_hook.
      assert (Hrh : Forall shaped
                (events ((if truthy orig then call_value h n orig args
                          else ret VUndefined) s))).
      { destruct (truthy orig); [apply IH|constructor]. }
      destruct ((if truthy orig then call_value h n orig args else ret VUndefined) s)
        as [[e|w] s1 evh]; cbn [outcome final events] in *; [done|].
      apply Forall_app. split; [done|]. apply Forall_app. split; [apply IH|].
      constructor; [|constructor].
      by destruct (outcome (call_value h n (prop s1 l "ccall") [VStr "nbind_init"] s1)).
Qed.

Lemma shaped_getLib s : Forall shaped (events (getLib s)).
Proof.
  unfold getLib. apply shaped_bind; [constructor|]. intros s0 s'.
  destruct (currentBinding s0) as [b|]; [|constructor].
  apply shaped_bind; [|intros; constructor].
  unfold read_binding. destruct (bindings s' !! b); constructor.
Qed.

Lemma shaped_runtime_ready h s : Forall shaped (events (runtime_ready h s)).
Proof.
  unfold runtime_ready. apply shaped_bind.
  - apply shaped_getLib.
  - intros [l|] s'; [|constructor]. apply shaped_bind; [constructor|].
    intros f s''. destruct (truthy f); [|constructor].
    apply shaped_bind; [apply shaped_call_value|]. intros; constructor.
Qed.

Lemma shaped_run_script h script s : Forall shaped (events (run_script h script s)).
Proof.
  revert s. induction script as [|[k v| |e] script IH]; intros s; cbn [run_script].
  - constructor.
  - apply shaped_bind; [apply shaped_getLib|]. intros m s'.
    apply shaped_bind; [destruct m; constructor|intros; apply IH].
  - apply shaped_bind; [apply shaped_runtime_ready|intros; apply IH].
  - constructor.
Qed.

Lemma shaped_require_binary h b s : Forall shaped (events (require_binary h b s)).
Proof.
  unfold require_binary. apply shaped_bind.
  - unfold read_binding. destruct (bindings s !! b); constructor.
  - intros x s'. destruct (binary x ≫= path) as [p|]; [|constructor].
    unfold require. apply shaped_bind; [by repeat constructor|].
    intros _ s''. destruct (require_load h p) as [e|script v]; [constructor|].
    apply shaped_bind; [apply shaped_run_script|intros; constructor].
Qed.

Lemma shaped_binding_lib b s : Forall shaped (events (binding_lib b s)).
Proof.
  unfold binding_lib. apply shaped_bind.
  - unfold read_binding. destruct (bindings s !! b); constructor.
  - intros x s'. destruct (lib x); constructor.
Qed.

Lemma shaped_copy_keys b src keys s : Forall shaped (events (copy_keys b src keys s)).
Proof.
  revert s. induction keys as [|k keys IH]; intros s; cbn [copy_keys]; [constructor|].
  apply shaped_bind; [apply shaped_binding_lib|]. intros dst s1.
  apply shaped_bind; [constructor|]. intros v s2.
  apply shaped_bind; [constructor|]. intros; apply IH.
Qed.

Lemma shaped_initNode h b cb s : Forall shaped (events (initNode h b cb s)).
Proof.
  unfold initNode. apply shaped_bind; [apply shaped_require_binary|].
  intros v s1.
  destruct (negb (truthy v) || negb (String.eqb (typeof v) "object")).
  - by apply shaped_call_callback.
  - destruct v; try (apply shaped_call_callback; split; [by eexists | done]).
    apply shaped_bind; [constructor|]. intros keys s2.
    apply shaped_bind; [apply shaped_copy_keys|]. intros _ s3.
    apply shaped_call_callback. split; [by eexists | done].
Qed.

Lemma shaped_initAsm h b cb s : Forall shaped (events (initAsm h b cb s)).
Proof.
  unfold initAsm. apply shaped_bind; [apply shaped_binding_lib|]. intros l s1.
  apply shaped_bind; [constructor|]. intros lf s2.
  apply shaped_bind; [constructor|]. intros _ s3.
  apply shaped_bind; [constructor|]. intros ri s4.
  apply shaped_bind; [constructor|]. intros _ s5.
  apply shaped_bind; [constructor|]. intros _ s6.
  apply shaped_bind; [apply shaped_require_binary|]. intros; constructor.
Qed.

Lemma shaped_init_found h b preset cb err found s :
  Forall shaped (events (init_found h b preset cb err found s)).
Proof.
  unfold init_found. destruct err as [e|].
  - by apply shaped_call_callback.
  - apply shaped_bind; [constructor|]. intros _ s1.
    apply shaped_bind; [destruct preset; constructor|]. intros l s2.
    apply shaped_bind; [constructor|]. intros _ s3.
    destruct found as [spec|]; [|constructor].
    destruct (type spec); [apply shaped_initNode | apply shaped_initAsm].
Qed.

Section ShapedLocator.

Variable h : Host.
Variable cb : FindCallback.
Hypothesis cb_shaped : forall err found s, Forall shaped (events (cb err found s)).

Lemma shaped_resolve p s : Forall shaped (events (resolve h p s)).
Proof.
  unfold resolve. apply shaped_bind; [by repeat constructor|].
  intros _ s'. destruct (require_resolve h p); constructor.
Qed.

Lemma shaped_fast_path basePath e specList tried s :
  Forall shaped (events (fast_path h basePath e specList cb tried s)).
Proof.
  revert tried s. induction specList as [|spec rest IH]; intros tried s;
    cbn [fast_path]; [constructor|].
  assert (Hrest : forall spec0 tried0 s0,
    Forall shaped
      (events ((r' <- fast_path h basePath e rest cb tried0;;
                match r' with
                | inl s1 => ret (inl s1)
                | inr (l, specs) => ret (inr (l, spec0 :: specs))
                end) s0))).
  { intros. apply shaped_bind; [apply IH|]. intros [?|[? ?]] ?; constructor. }
  destruct (String.eqb e (ext spec)); [|apply Hrest].
  apply shaped_bind.
  - unfold try_ at 1. cbn [events]. apply shaped_bind; [apply shaped_resolve|].
    intros p s1. apply shaped_bind; [unfold try_; cbn [events]; apply cb_shaped|].
    intros; constructor.
  - intros [err|[spec' [err|[]]]] s1; try apply Hrest. constructor.
Qed.

Lemma shaped_try_paths spec paths tried s :
  Forall shaped (events (try_paths h spec paths cb tried s)).
Proof.
  revert tried s. induction paths as [|parts paths IH]; intros tried s;
    cbn [try_paths]; [constructor|].
  apply shaped_bind; [unfold try_; cbn [events]; apply shaped_resolve|].
  intros [err|p] s1; [apply IH|].
  apply shaped_bind; [apply cb_shaped|intros; constructor].
Qed.

Lemma shaped_dir_search basePath specList tried s :
  Forall shaped (events (dir_search h basePath specList cb tried s)).
Proof.
  revert tried s. induction specList as [|spec rest IH]; intros tried s;
    cbn [dir_search]; [constructor|].
  apply shaped_bind; [apply shaped_try_paths|].
  intros [sp|l] s1; [constructor|apply IH].
Qed.

Lemma shaped_findCompiledModule basePath specList s :
  Forall shaped (events (findCompiledModule h basePath specList cb s)).
Proof.
  unfold findCompiledModule. apply shaped_bind; [apply shaped_fast_path|].
  intros [sp|[tried specs]] s1; [constructor|].
  apply shaped_bind; [apply shaped_dir_search|].
  intros [sp|l] s2; [constructor|].
  apply shaped_bind; [apply cb_shaped|intros; constructor].
Qed.

End ShapedLocator.

(** On every host, for every store and every argument, each call of a
    completion callback during [init], and during any later readiness
    signal, passes either an error and no binding or a binding and no
    error: never both, never neither. *)
Theorem reports_are_well_formed h basePath preset cb s s1 :
  Forall shaped (events (init h basePath preset cb s)) /\
  Forall shaped (events (runtime_ready h s1)).
Proof.
  split; [|apply shaped_runtime_ready].
  unfold init. apply shaped_bind; [constructor|]. intros b s'.
  apply shaped_bind; [|intros; constructor].
  unfold find. apply shaped_findCompiledModule.
  intros err found s2. apply shaped_init_found.
Qed.
